(** * uwsgi: an http.Handler proxying requests to a uWSGI backend

    A shallow embedding of [Handler.ServeHTTP] (uwsgi.go) and the properties
    of its header mapper, packet encoder and connection loop.

    Conventions of the embedding.
    - A Go [string] is a sequence of bytes: it is a [string] here, and
      [len] is its length in bytes.
    - Go's [int] and [int64] values are [Z].  [uint16(x)] and the arithmetic
      on [time.Duration] (an int64 count of nanoseconds) have their
      wrap-around written out.  The [int] accumulator [size] is a sum of
      lengths of strings held in memory and is kept unbounded.
    - [http.Header] is a Go map from string to []string: a
      [gmap string (list string)].  A [range] over a Go map visits the
      entries in an order the language leaves unspecified; the order is
      chosen by the [World] the handler runs in.
    - Everything the handler does to the outside (the response writer, the
      dial function, timers, the backend connection, the logger) is
      recorded as a list of [event]s; what the outside answers comes from
      the [World]. *)

From Stdlib Require Import ZArith String Ascii DecimalString List Lia.
From Stdlib.Strings Require Import Byte.
From Stdlib Require DecimalZ DecimalPos.
From stdpp Require Import gmap strings list fin_maps.

Local Open Scope string_scope.
Local Open Scope Z_scope.

(** ** Go library functions the handler calls *)

(** [len(s)] *)
Definition len (s : string) : Z := Z.of_nat (String.length s).

(** [s[i:j]] for [0 <= i <= j <= len(s)] *)
Definition slice (s : string) (i j : Z) : string :=
  String.substring (Z.to_nat i) (Z.to_nat (j - i)) s.

(** [s[i]] *)
Definition byte_at (s : string) (i : Z) : option ascii :=
  String.get (Z.to_nat i) s.

Module Go_strings.

(** [strings.IndexByte]: index of the first [c] in [s], or -1. *)
Fixpoint IndexByte (s : string) (c : ascii) : Z :=
  match s with
  | EmptyString => -1
  | String a s' =>
      if Ascii.eqb a c then 0
      else let i := IndexByte s' c in if i <? 0 then -1 else i + 1
  end.

(** [strings.LastIndexByte]: index of the last [c] in [s], or -1. *)
Fixpoint LastIndexByte (s : string) (c : ascii) : Z :=
  match s with
  | EmptyString => -1
  | String a s' =>
      let i := LastIndexByte s' c in
      if 0 <=? i then i + 1 else if Ascii.eqb a c then 0 else -1
  end.

(** [strings.Join] *)
Fixpoint Join (elems : list string) (sep : string) : string :=
  match elems with
  | [] => ""
  | [e] => e
  | e :: rest => e ++ sep ++ Join rest sep
  end.

(** [strings.Map], on strings of one-byte runes (ASCII strings), where it
    maps byte by byte.  Header names reaching an [http.Handler] are HTTP
    tokens, which are ASCII.  On other strings Go decodes UTF-8: it maps
    each rune of several bytes as a whole and replaces an invalid byte by
    U+FFFD; that is not modelled, and a byte from 0x80 on is mapped like any
    other here. *)
Fixpoint Map (mapping : ascii -> ascii) (s : string) : string :=
  match s with
  | EmptyString => EmptyString
  | String a s' => String (mapping a) (Map mapping s')
  end.

End Go_strings.

Module Go_unicode.

(** [unicode.ToUpper] on a one-byte rune: ['a'..'z'] lose 32.  The letters
    beyond ASCII, which Go maps through the case tables of its [unicode]
    package, are not modelled: a byte from 0x80 on is left as it is. *)
Definition ToUpper (r : ascii) : ascii :=
  let n := N_of_ascii r in
  if ((97 <=? n) && (n <=? 122))%N then ascii_of_N (n - 32) else r.

End Go_unicode.

Module Go_strconv.

(** [strconv.FormatInt(i, 10)]: the decimal digits of [i], with a leading
    minus sign when it is negative. *)
Definition FormatInt (i : Z) : string := NilZero.string_of_int (Z.to_int i).

End Go_strconv.

Module Go_net.

Import Go_strings.

(** [net.SplitHostPort]: splits ["host:port"], ["[host]:port"] into host and
    port; [None] stands for a non-nil error (the handler only tests
    [err == nil]). *)
Definition SplitHostPort (hostport : string) : option (string * string) :=
  let n := len hostport in
  (* The port starts after the last colon. *)
  let i := LastIndexByte hostport ":" in
  if i <? 0 then None (* missing port in address *)
  else
    let host_j_k :=
      if bool_decide (byte_at hostport 0 = Some "["%char) then
        (* Expect the first ']' just before the last ':'. *)
        let e := IndexByte hostport "]" in
        if e <? 0 then None (* missing ']' in address *)
        else if e + 1 =? n then None (* missing port in address *)
        else if e + 1 =? i then Some (slice hostport 1 e, 1, e + 1)
        else None (* too many colons, or missing port *)
      else
        let host := slice hostport 0 i in
        if 0 <=? IndexByte host ":" then None (* too many colons *)
        else Some (host, 0, 0) in
    match host_j_k with
    | None => None
    | Some (host, j, k) =>
        if 0 <=? IndexByte (slice hostport j n) "[" then None
        else if 0 <=? IndexByte (slice hostport k n) "]" then None
        else Some (host, slice hostport (i + 1) n)
    end.

End Go_net.

(** ** The request *)

(** The fields of [*http.Request] (and of its [URL] and context) that the
    handler reads. *)
Record URL := {
  RawQuery : string;
  Path : string;
  Scheme : string;
}.

Record Request := {
  Method : string;
  Url : URL;                          (* r.URL *)
  Proto : string;
  Header : gmap string (list string);
  ContentLength : Z;                  (* int64; -1 when unknown *)
  Host : string;
  RemoteAddr : string;
  RequestURI : string;
  Body : list byte;
  (* r.Context().Value(http.LocalAddrContextKey).(net.Addr): the String()
     of the address when the context holds one. *)
  LocalAddr : option string;
  (* r.Context().Value(http.ServerContextKey) gives a server with a
     non-nil ErrorLog (see logFunc). *)
  ErrorLog : bool;
}.

(** [http.Header.Get]: the first value stored under the key, or [""].  Get
    canonicalises its argument first; the four keys the handler asks for
    ("Trailer", "Content-Type", "X-Forwarded-Proto", "X-Forwarded-For") are
    in canonical form already. *)
Definition Get (h : gmap string (list string)) (key : string) : string :=
  match h !! key with
  | Some (v :: _) => v
  | _ => ""
  end.

(** ** Iteration over a Go map *)

(** [insert_at i x l] puts [x] before position [i] of [l] (at the end when
    [i] is beyond it). *)
Definition insert_at {A} (i : nat) (x : A) (l : list A) : list A :=
  take i l ++ x :: drop i l.

(** [shuffle choices l]: a rearrangement of [l] picked by [choices]; each
    element is inserted into the rearranged rest at the position the next
    choice names. *)
Fixpoint shuffle {A} (choices : list nat) (l : list A) : list A :=
  match l with
  | [] => []
  | x :: l' =>
      let rest := shuffle (tl choices) l' in
      insert_at (hd 0%nat choices mod S (length rest)) x rest
  end.

(** [for k, v := range m]: the entries of [m], each once, in an order that
    is not specified and may change from one loop to the next. *)
Definition range_map {V} (choices : list nat) (m : gmap string V)
  : list (string * V) :=
  shuffle choices (map_to_list m).

(** ** Header mapper (uwsgi.go, lines 57-125) *)

Definition maxSize : Z := 2 ^ 16 - 1.

Record hdr := mkhdr { name : string; value : string }.

(** Status codes of net/http. *)
Definition StatusBadRequest : Z := 400.
Definition StatusRequestHeaderFieldsTooLarge : Z := 431.
Definition StatusBadGateway : Z := 502.
Definition StatusServiceUnavailable : Z := 503.
Definition StatusGatewayTimeout : Z := 504.

(** The text handed to [http.Error]. *)
Inductive errtext :=
| TrailersNotSupported            (* "Request trailers are not supported" *)
| HeaderTooLarge (k : string)     (* fmt.Sprintf("Header %q is too large\n", k) *)
| StatusText (code : Z).          (* http.StatusText(code) *)

(** Lines 64-73. *)
Definition fixed_headers (r : Request) : list hdr :=
  [ mkhdr "QUERY_STRING" (RawQuery (Url r));
    mkhdr "REQUEST_METHOD" (Method r);
    mkhdr "CONTENT_TYPE" (Get (Header r) "Content-Type");
    mkhdr "CONTENT_LENGTH" (Go_strconv.FormatInt (ContentLength r));
    mkhdr "REQUEST_URI" (RequestURI r);
    mkhdr "PATH_INFO" (Path (Url r));
    mkhdr "SERVER_PROTOCOL" (Proto r);
    mkhdr "SERVER_NAME" (Host r) ].

Definition is_https (r : Request) : bool :=
  bool_decide (Scheme (Url r) = "https")
  || bool_decide (Get (Header r) "X-Forwarded-Proto" = "https").

(** Lines 74-82. *)
Definition port_headers (r : Request) : list hdr :=
  if is_https r then [mkhdr "HTTPS" "on"; mkhdr "SERVER_PORT" "443"]
  else
    match LocalAddr r with
    | Some addr =>
        match Go_net.SplitHostPort addr with
        | Some (_, port) => [mkhdr "SERVER_PORT" port]
        | None => []
        end
    | None => [mkhdr "SERVER_PORT" "80"]
    end.

(** Lines 84-87: the forwarding header cut at its first comma, when that
    comma is not its first byte. *)
Definition forwarded_addr (s : string) : string :=
  let i := Go_strings.IndexByte s "," in
  if 0 <? i then slice s 0 i else s.

(** Lines 83-96. *)
Definition remote_headers (r : Request) : list hdr :=
  let s := Get (Header r) "X-Forwarded-For" in
  let hasRemoteAddr := negb (bool_decide (s = "")) in
  (if hasRemoteAddr then [mkhdr "REMOTE_ADDR" (forwarded_addr s)] else [])
  ++
  match Go_net.SplitHostPort (RemoteAddr r) with
  | Some (host, port) =>
      (if hasRemoteAddr then [] else [mkhdr "REMOTE_ADDR" host])
      ++ [mkhdr "REMOTE_PORT" port]
  | None => []
  end.

(** The slice [headers] when the loop over [r.Header] starts (line 97). *)
Definition positional_headers (r : Request) : list hdr :=
  fixed_headers r ++ port_headers r ++ remote_headers r.

(** Lines 98-104: the pair made from one entry of [r.Header]. *)
Definition http_header (kv : string * list string) : hdr :=
  let k2 := "HTTP_" ++
            Go_strings.Map
              (fun c => if Ascii.eqb c "-" then "_"%char
                        else Go_unicode.ToUpper c)
              kv.1 in
  mkhdr k2 (Go_strings.Join kv.2 ", ").

Definition too_large (h : hdr) : bool :=
  (maxSize <? len (name h)) || (maxSize <? len (value h)).

(** Lines 97-111: the loop over [r.Header], in the order the range yields
    its entries; it stops at the first pair that is too large. *)
Fixpoint header_loop (entries : list (string * list string))
    (headers : list hdr) : (Z * errtext) + list hdr :=
  match entries with
  | [] => inr headers
  | kv :: rest =>
      let h := http_header kv in
      if too_large h
      then inl (StatusRequestHeaderFieldsTooLarge, HeaderTooLarge kv.1)
      else header_loop rest (headers ++ [h])
  end.

(** Lines 112-120: the loop adding up [size]; [None] when a pair is too
    large. *)
Fixpoint size_loop (headers : list hdr) (size : Z) : option Z :=
  match headers with
  | [] => Some size
  | h :: rest =>
      if too_large h then None
      else size_loop rest (size + len (name h) + len (value h) + 4)
  end.

(** Lines 57-125: the headers and their total size, or the error response
    the handler writes before it returns. *)
Definition header_mapper (choices : list nat) (r : Request)
  : (Z * errtext) + (list hdr * Z) :=
  if negb (bool_decide (Get (Header r) "Trailer" = ""))
  then inl (StatusBadRequest, TrailersNotSupported)
  else
    match header_loop (range_map choices (Header r)) (positional_headers r) with
    | inl e => inl e
    | inr headers =>
        match size_loop headers 0 with
        | None =>
            inl (StatusRequestHeaderFieldsTooLarge,
                 StatusText StatusRequestHeaderFieldsTooLarge)
        | Some size =>
            if maxSize <? size
            then inl (StatusRequestHeaderFieldsTooLarge,
                      StatusText StatusRequestHeaderFieldsTooLarge)
            else inr (headers, size)
        end
    end.

(** ** Packet encoder (uwsgi.go, lines 161-171) *)

(** The conversions [uint16(x)] and [byte(x)] keep the low bits. *)
Definition uint16 (x : Z) : Z := x mod 2 ^ 16.

Definition byte_of_Z (x : Z) : byte :=
  byte_of_ascii (ascii_of_N (Z.to_N (x mod 2 ^ 8))).

Definition Z_of_byte (b : byte) : Z := Z.of_N (Byte.to_N b).

(** [binary.LittleEndian.PutUint16] (and [binary.Write] of a uint16 in
    little-endian order): the low byte, then the high byte. *)
Definition PutUint16 (v : Z) : list byte :=
  [byte_of_Z v; byte_of_Z (Z.shiftr v 8)].

(** Lines 161-162: four zero bytes, the size put at [1:3]. *)
Definition uwsgiHeader (size : Z) : list byte :=
  [x00] ++ PutUint16 (uint16 size) ++ [x00].

(** Lines 167-170: what one turn of the loop appends to the buffer. *)
Definition write_hdr (buf : list byte) (h : hdr) : list byte :=
  buf ++ PutUint16 (uint16 (len (name h)))
      ++ list_byte_of_string (name h)
      ++ PutUint16 (uint16 (len (value h)))
      ++ list_byte_of_string (value h).

(** Lines 163-171: the buffer, reset, after the prefix and every pair have
    been written to it. *)
Definition packet (headers : list hdr) (size : Z) : list byte :=
  fold_left write_hdr headers (uwsgiHeader size).

(** ** The world around the handler *)

(** What [dial] can return.  [err == context.Canceled] is tested first, then
    whether the error is a [net.Error] whose [Temporary()] holds. *)
Inductive error :=
| Canceled                         (* context.Canceled *)
| NetError (temporary : bool)      (* a net.Error *)
| OtherError.

Inductive DialResult :=
| DialOk                           (* a connection, err == nil *)
| DialErr (err : error).

(** Which case of the [select] at lines 148-153 is taken. *)
Inductive SelectResult :=
| TimerFired                       (* <-time.After(tempDelay) *)
| ContextDone.                     (* <-r.Context().Done() *)

(** The backend's reply as [http.ReadResponse] parses it. *)
Record Response := {
  StatusCode : Z;
  RespHeader : gmap string (list string);
  RespBody : list byte;
}.

Record World := {
  rangeHeader : list nat;            (* order of [range r.Header] *)
  dial : nat -> DialResult;          (* what the n-th call of dial returns *)
  selectCase : nat -> SelectResult;  (* how the n-th wait ends *)
  packetCopy : bool;                 (* io.Copy(conn, buf) returns no error *)
  bodyCopy : bool;                   (* io.Copy(conn, r.Body) returns no error *)
  readResponse : option Response;    (* http.ReadResponse, None on error *)
  rangeRespHeader : list nat;        (* order of [range resp.Header] *)
  wHeader0 : gmap string (list string); (* w.Header() when the handler starts *)
}.

Inductive logtext :=
| LogConnect (err : error)           (* "uwsgi backend connect: %v" *)
| LogPacketWrite                     (* "uwsgi header packet write: %v" *)
| LogBodyWrite                       (* "uwsgi body write: %v" *)
| LogResponseRead.                   (* "uwsgi response read: %v" *)

Inductive event :=
| EvError (code : Z) (text : errtext)       (* http.Error(w, text, code) *)
| EvDial (res : DialResult)                 (* dial(r.Context()) *)
| EvWait (d : Z) (res : SelectResult)       (* the select, d in nanoseconds *)
| EvLog (text : logtext)                    (* logf(...) *)
| EvConnWrite (p : list byte) (ok : bool)   (* io.Copy(conn, buf) *)
| EvConnWriteBody (p : list byte) (ok : bool) (* io.Copy(conn, r.Body) *)
| EvReadResponse (ok : bool)                (* http.ReadResponse *)
| EvWriteHeader (code : Z) (h : gmap string (list string))
                                            (* w.WriteHeader, with w.Header() *)
| EvCopyBody (p : list byte)                (* io.Copy(w, resp.Body) *)
| EvConnClose.                              (* the deferred conn.Close() *)

(** How the call of [ServeHTTP] ends. *)
Inductive outcome :=
| Returned
| Aborted.                           (* panic(http.ErrAbortHandler) *)

(** [logf]: the server's [ErrorLog.Printf], or a function that does
    nothing (lines 197-203). *)
Definition logf (r : Request) (text : logtext) : list event :=
  if ErrorLog r then [EvLog text] else [].

(** ** Connection loop (uwsgi.go, lines 126-158) *)

Definition Millisecond : Z := 1000000.
Definition Second : Z := 1000 * Millisecond.

(** int64 arithmetic of [time.Duration]. *)
Definition wrap64 (x : Z) : Z := (x + 2 ^ 63) mod 2 ^ 64 - 2 ^ 63.

(** Lines 137-141. *)
Definition next_delay (tempDelay : Z) : Z :=
  if tempDelay =? 0 then wrap64 (5 * Millisecond) else wrap64 (tempDelay * 2).

Inductive loop_end :=
| Connected                        (* break: conn is open *)
| Failed                           (* an error response was written; return *)
| Panicked                         (* panic(http.ErrAbortHandler) *)
| OutOfFuel.

(** The [for] loop of lines 129-158.  [n] counts the calls of [dial] made
    so far (one wait follows each but the last), [tempDelay] is the
    variable of that name. *)
Fixpoint dial_loop (fuel : nat) (w : World) (r : Request) (n : nat)
    (tempDelay : Z) : list event * loop_end :=
  match fuel with
  | O => ([], OutOfFuel)
  | S fuel' =>
      match dial w n with
      | DialOk => ([EvDial DialOk], Connected)
      | DialErr Canceled => ([EvDial (DialErr Canceled)], Panicked)
      | DialErr (NetError true) =>
          let err := NetError true in
          let tempDelay := next_delay tempDelay in
          if Second <? tempDelay then
            (EvDial (DialErr err) :: logf r (LogConnect err)
               ++ [EvError StatusGatewayTimeout (StatusText StatusGatewayTimeout)],
             Failed)
          else
            match selectCase w n with
            | TimerFired =>
                let '(evs, e) := dial_loop fuel' w r (S n) tempDelay in
                (EvDial (DialErr err) :: EvWait tempDelay TimerFired :: evs, e)
            | ContextDone =>
                ([EvDial (DialErr err); EvWait tempDelay ContextDone], Panicked)
            end
      | DialErr err =>
          (EvDial (DialErr err) :: logf r (LogConnect err)
             ++ [EvError StatusServiceUnavailable
                   (StatusText StatusServiceUnavailable)],
           Failed)
      end
  end.

(** The loop never takes more than nine turns (see [dial_loop_fuel]). *)
Definition loop_fuel : nat := 9.

(** ** The exchange on the open connection (uwsgi.go, lines 159-194) *)

Definition serve_conn (w : World) (r : Request) (headers : list hdr)
    (size : Z) : list event :=
  let buf := packet headers size in
  (if negb (packetCopy w) then
     EvConnWrite buf false :: logf r LogPacketWrite
       ++ [EvError StatusBadGateway (StatusText StatusBadGateway)]
   else if negb (bodyCopy w) then
     EvConnWrite buf true :: EvConnWriteBody (Body r) false
       :: logf r LogBodyWrite
       ++ [EvError StatusBadGateway (StatusText StatusBadGateway)]
   else
     match readResponse w with
     | None =>
         EvConnWrite buf true :: EvConnWriteBody (Body r) true
           :: EvReadResponse false :: logf r LogResponseRead
           ++ [EvError StatusBadGateway (StatusText StatusBadGateway)]
     | Some resp =>
         let wHeader :=
           fold_left (fun h kv => <[kv.1 := kv.2]> h)
             (range_map (rangeRespHeader w) (RespHeader resp)) (wHeader0 w) in
         [EvConnWrite buf true; EvConnWriteBody (Body r) true;
          EvReadResponse true; EvWriteHeader (StatusCode resp) wHeader;
          EvCopyBody (RespBody resp)]
     end)
  ++ [EvConnClose].

(** ** The handler *)

(** [Handler.ServeHTTP]: the events of one call, in order, and how the call
    ends.  The loop is given [loop_fuel] turns and never runs out of them
    (see [dial_loop_fuel]). *)
Definition ServeHTTP (w : World) (r : Request) : list event * outcome :=
  match header_mapper (rangeHeader w) r with
  | inl (code, text) => ([EvError code text], Returned)
  | inr (headers, size) =>
      match dial_loop loop_fuel w r 0 0 with
      | (evs, Connected) =>
          ((evs ++ serve_conn w r headers size)%list, Returned)
      | (evs, Panicked) => (evs, Aborted)
      | (evs, _) => (evs, Returned)
      end
  end.

(** ** The second version of the handler (src/unnamed/part_000)

    The file differs from uwsgi.go in the positional fields only (its
    lines 42-62): REQUEST_SCHEME in place of SERVER_NAME at first, HTTPS
    from the scheme alone, the peer's address without regard to a
    forwarding header, and SERVER_NAME and SERVER_PORT from the local
    address.  The checks, the connection loop and the encoder are the
    same lines. *)
Module Part000.

Definition fixed_headers (r : Request) : list hdr :=
  [ mkhdr "QUERY_STRING" (RawQuery (Url r));
    mkhdr "REQUEST_METHOD" (Method r);
    mkhdr "CONTENT_TYPE" (Get (Header r) "Content-Type");
    mkhdr "CONTENT_LENGTH" (Go_strconv.FormatInt (ContentLength r));
    mkhdr "REQUEST_URI" (RequestURI r);
    mkhdr "PATH_INFO" (Path (Url r));
    mkhdr "SERVER_PROTOCOL" (Proto r);
    mkhdr "REQUEST_SCHEME" (Scheme (Url r)) ].

Definition positional_headers (r : Request) : list hdr :=
  fixed_headers r
  ++ (if bool_decide (Scheme (Url r) = "https") then [mkhdr "HTTPS" "on"]
      else [])
  ++ match Go_net.SplitHostPort (RemoteAddr r) with
     | Some (host, port) => [mkhdr "REMOTE_ADDR" host; mkhdr "REMOTE_PORT" port]
     | None => []
     end
  ++ match LocalAddr r with
     | Some addr =>
         match Go_net.SplitHostPort addr with
         | Some (host, port) =>
             [mkhdr "SERVER_NAME" host; mkhdr "SERVER_PORT" port]
         | None => []
         end
     | None => []
     end.

Definition header_mapper (choices : list nat) (r : Request)
  : (Z * errtext) + (list hdr * Z) :=
  if negb (bool_decide (Get (Header r) "Trailer" = ""))
  then inl (StatusBadRequest, TrailersNotSupported)
  else
    match header_loop (range_map choices (Header r)) (positional_headers r) with
    | inl e => inl e
    | inr headers =>
        match size_loop headers 0 with
        | None =>
            inl (StatusRequestHeaderFieldsTooLarge,
                 StatusText StatusRequestHeaderFieldsTooLarge)
        | Some size =>
            if maxSize <? size
            then inl (StatusRequestHeaderFieldsTooLarge,
                      StatusText StatusRequestHeaderFieldsTooLarge)
            else inr (headers, size)
        end
    end.

Definition ServeHTTP (w : World) (r : Request) : list event * outcome :=
  match header_mapper (rangeHeader w) r with
  | inl (code, text) => ([EvError code text], Returned)
  | inr (headers, size) =>
      match dial_loop loop_fuel w r 0 0 with
      | (evs, Connected) =>
          ((evs ++ serve_conn w r headers size)%list, Returned)
      | (evs, Panicked) => (evs, Aborted)
      | (evs, _) => (evs, Returned)
      end
  end.

End Part000.

(** ** The packet format in the words of the specification *)

(** [totalSize] of a HeaderSet: the sum over its pairs of
    [len(name) + len(value) + 4]. *)
Fixpoint totalSize (headers : list hdr) : Z :=
  match headers with
  | [] => 0
  | h :: rest => len (name h) + len (value h) + 4 + totalSize rest
  end.

(** A 16-bit unsigned number in little-endian order, and its reading. *)
Definition le16 (n : Z) : list byte :=
  [byte_of_Z (n mod 256); byte_of_Z (n / 256)].

Definition le16_value (lo hi : byte) : Z := Z_of_byte lo + 256 * Z_of_byte hi.

(** One HeaderPair: 16-bit length of name, raw name bytes, 16-bit length of
    value, raw value bytes. *)
Definition spec_pair (h : hdr) : list byte :=
  le16 (len (name h)) ++ list_byte_of_string (name h)
  ++ le16 (len (value h)) ++ list_byte_of_string (value h).

(** Byte 0 the modifier 0, bytes 1-2 the total size, byte 3 the modifier 0,
    then the pairs in order. *)
Definition spec_packet (headers : list hdr) : list byte :=
  x00 :: le16 (totalSize headers) ++ x00 :: flat_map spec_pair headers.

(** ** A decoder of the packet *)

(** Modelled from the spec: the repository has no decoder (the packet is
    read by the uWSGI backend).  Reading a 16-bit little-endian number. *)
Definition read_u16 (bs : list byte) : option (Z * list byte) :=
  match bs with
  | lo :: hi :: rest => Some (le16_value lo hi, rest)
  | _ => None
  end.

(** Modelled from the spec: reading [n] raw bytes. *)
Definition read_string (n : Z) (bs : list byte) : option (string * list byte) :=
  if n <=? Z.of_nat (length bs)
  then Some (string_of_list_byte (take (Z.to_nat n) bs), drop (Z.to_nat n) bs)
  else None.

(** Modelled from the spec: repeatedly reading a 16-bit length-prefixed
    name and a 16-bit length-prefixed value until the payload is consumed.
    [fuel] bounds the number of pairs; each pair takes at least four bytes
    of the payload, so its length is enough. *)
Fixpoint decode_pairs (fuel : nat) (payload : list byte) : option (list hdr) :=
  match payload with
  | [] => Some []
  | _ =>
      match fuel with
      | O => None
      | S fuel' =>
          '(nlen, bs1) ← read_u16 payload;
          '(nm, bs2) ← read_string nlen bs1;
          '(vlen, bs3) ← read_u16 bs2;
          '(v, bs4) ← read_string vlen bs3;
          rest ← decode_pairs fuel' bs4;
          Some (mkhdr nm v :: rest)
      end
  end.

(** Modelled from the spec: the decoder of the packet.  It reads the
    4-byte prefix, takes the payload of the size the prefix gives, and
    reads the pairs from it; what follows the payload in the stream (the
    request body) is left alone. *)
Definition decode (stream : list byte) : option (list hdr) :=
  match stream with
  | _ :: lo :: hi :: _ :: rest =>
      let size := le16_value lo hi in
      if size <=? Z.of_nat (length rest)
      then decode_pairs (length rest) (take (Z.to_nat size) rest)
      else None
  | _ => None
  end.

(** The HeaderSet a request maps to when no check stops the mapper: the
    positional pairs, then one pair for each entry of [r.Header] in the
    order of the iteration. *)
Definition all_headers (choices : list nat) (r : Request) : list hdr :=
  positional_headers r ++ map http_header (range_map choices (Header r)).

(** ** Observations on a run of the handler *)

(** The delays of the waits, in order. *)
Definition waits (evs : list event) : list Z :=
  flat_map (fun e => match e with EvWait d _ => [d] | _ => [] end) evs.

(** What the calls of the dial function returned, in order, and their
    number. *)
Definition dials (evs : list event) : list DialResult :=
  flat_map (fun e => match e with EvDial res => [res] | _ => [] end) evs.

Definition dial_count (evs : list event) : nat := length (dials evs).

(** The event is a use of the dial function or of a backend connection. *)
Definition backend_contact (e : event) : bool :=
  match e with
  | EvDial _ | EvConnWrite _ _ | EvConnWriteBody _ _
  | EvReadResponse _ | EvConnClose => true
  | _ => false
  end.

(** The event is a use of an open backend connection. *)
Definition connection_use (e : event) : bool :=
  match e with
  | EvConnWrite _ _ | EvConnWriteBody _ _ | EvReadResponse _ | EvConnClose =>
      true
  | _ => false
  end.

(** The event writes to the response (status, headers or body). *)
Definition writes_response (e : event) : bool :=
  match e with
  | EvError _ _ | EvWriteHeader _ _ | EvCopyBody _ => true
  | _ => false
  end.

(** The event is a cancellation seen by the handler: dial returned
    [context.Canceled], or the context was done during a wait. *)
Definition cancellation (e : event) : bool :=
  match e with
  | EvDial (DialErr Canceled) | EvWait _ ContextDone => true
  | _ => false
  end.

(** The waits of the backoff, in nanoseconds: 5ms doubled up to 640ms. *)
Definition backoff_delays : list Z :=
  map (fun ms => ms * Millisecond) [5; 10; 20; 40; 80; 160; 320; 640].

(** A call of dial that fails temporarily followed by a wait of [d] that
    runs to its end. *)
Definition retry (d : Z) : list event :=
  [EvDial (DialErr (NetError true)); EvWait d TimerFired].

(** The values of the pairs called [n], in order. *)
Definition values_of (n : string) (headers : list hdr) : list string :=
  flat_map (fun h => if String.eqb (name h) n then [value h] else []) headers.

(** The number a signed decimal numeral denotes. *)
Definition decimal_value (s : string) : option Z :=
  option_map Z.of_int (NilZero.int_of_string s).

(** The bytes of a comma-separated list before its first comma. *)
Fixpoint leftmost_entry (s : string) : string :=
  match s with
  | EmptyString => EmptyString
  | String c s' => if Ascii.eqb c "," then EmptyString
                   else String c (leftmost_entry s')
  end.

(** ** The runs of the connection loop *)

(** [schedule tempDelay ds]: starting from [tempDelay], the loop computes
    the delays [ds] one after the other, each no longer than a second, and
    the delay after the last of them is beyond a second. *)
Fixpoint schedule (tempDelay : Z) (ds : list Z) : Prop :=
  match ds with
  | [] => Second < next_delay tempDelay
  | d :: ds' => d = next_delay tempDelay /\ d <= Second /\ schedule d ds'
  end.

(** [loop_run r ds evs e]: [evs] and [e] are the events and the end of a
    run of the loop that has the delays [ds] left to wait. *)
Inductive loop_run (r : Request) : list Z -> list event -> loop_end -> Prop :=
| run_connected ds :
    loop_run r ds [EvDial DialOk] Connected
| run_canceled ds :
    loop_run r ds [EvDial (DialErr Canceled)] Panicked
| run_unavailable ds err :
    err = NetError false \/ err = OtherError ->
    loop_run r ds
      (EvDial (DialErr err) :: logf r (LogConnect err)
         ++ [EvError StatusServiceUnavailable
               (StatusText StatusServiceUnavailable)])
      Failed
| run_timeout :
    loop_run r []
      (EvDial (DialErr (NetError true)) :: logf r (LogConnect (NetError true))
         ++ [EvError StatusGatewayTimeout (StatusText StatusGatewayTimeout)])
      Failed
| run_wait_canceled d ds :
    loop_run r (d :: ds)
      [EvDial (DialErr (NetError true)); EvWait d ContextDone] Panicked
| run_retry d ds evs e :
    loop_run r ds evs e ->
    loop_run r (d :: ds) (retry d ++ evs) e.

(** More observations on a run. *)

(** The status codes written to the response, in order. *)
Definition responses (evs : list event) : list Z :=
  flat_map (fun e => match e with
                     | EvError code _ | EvWriteHeader code _ => [code]
                     | _ => []
                     end) evs.

(** What is logged, in order. *)
Definition logs (evs : list event) : list logtext :=
  flat_map (fun e => match e with EvLog t => [t] | _ => [] end) evs.

(** The bytes handed to the backend connection, in order. *)
Definition conn_bytes (evs : list event) : list byte :=
  flat_map (fun e => match e with
                     | EvConnWrite p _ | EvConnWriteBody p _ => p
                     | _ => []
                     end) evs.

(** The number of times the connection is closed. *)
Definition closes (evs : list event) : nat :=
  length (flat_map (fun e => match e with EvConnClose => [tt] | _ => [] end) evs).

(** The status codes of the error responses, in order. *)
Definition error_codes (evs : list event) : list Z :=
  flat_map (fun e => match e with EvError code _ => [code] | _ => [] end) evs.

(** The events before the first use of a backend connection. *)
Fixpoint before_use (evs : list event) : list event :=
  match evs with
  | [] => []
  | e :: evs' => if connection_use e then [] else e :: before_use evs'
  end.

(** The byte is an ASCII lower-case letter. *)
Definition is_lower (c : ascii) : bool :=
  ((97 <=? N_of_ascii c) && (N_of_ascii c <=? 122))%N.

(** The byte occurs in the string. *)
Fixpoint occurs (c : ascii) (s : string) : bool :=
  match s with
  | EmptyString => false
  | String a s' => Ascii.eqb a c || occurs c s'
  end.

(** Every byte of the string is below 0x80: each is a rune of its own, so
    that [strings.Map] visits the string byte by byte. *)
Fixpoint is_ascii (s : string) : bool :=
  match s with
  | EmptyString => true
  | String a s' => (N_of_ascii a <? 128)%N && is_ascii s'
  end.

(** ** Requests and worlds used as examples *)

Definition plain_request : Request := {|
  Method := "GET";
  Url := {| RawQuery := "a=1"; Path := "/app"; Scheme := "http" |};
  Proto := "HTTP/1.1";
  Header := ∅;
  ContentLength := 0;
  Host := "example.org";
  RemoteAddr := "9.9.9.9:555";
  RequestURI := "/app?a=1";
  Body := [];
  LocalAddr := Some "10.0.0.1:8080";
  ErrorLog := true;
|}.

Definition with_header (h : gmap string (list string)) (r : Request)
  : Request := {|
  Method := Method r; Url := Url r; Proto := Proto r; Header := h;
  ContentLength := ContentLength r; Host := Host r;
  RemoteAddr := RemoteAddr r; RequestURI := RequestURI r; Body := Body r;
  LocalAddr := LocalAddr r; ErrorLog := ErrorLog r;
|}.

Definition with_local_addr (a : option string) (r : Request) : Request := {|
  Method := Method r; Url := Url r; Proto := Proto r; Header := Header r;
  ContentLength := ContentLength r; Host := Host r;
  RemoteAddr := RemoteAddr r; RequestURI := RequestURI r; Body := Body r;
  LocalAddr := a; ErrorLog := ErrorLog r;
|}.

Definition with_content_length (n : Z) (r : Request) : Request := {|
  Method := Method r; Url := Url r; Proto := Proto r; Header := Header r;
  ContentLength := n; Host := Host r;
  RemoteAddr := RemoteAddr r; RequestURI := RequestURI r; Body := Body r;
  LocalAddr := LocalAddr r; ErrorLog := ErrorLog r;
|}.

Definition with_scheme (s : string) (r : Request) : Request := {|
  Method := Method r;
  Url := {| RawQuery := RawQuery (Url r); Path := Path (Url r); Scheme := s |};
  Proto := Proto r; Header := Header r;
  ContentLength := ContentLength r; Host := Host r;
  RemoteAddr := RemoteAddr r; RequestURI := RequestURI r; Body := Body r;
  LocalAddr := LocalAddr r; ErrorLog := ErrorLog r;
|}.

(** The request of the specification's example: a forwarding header and a
    direct peer. *)
Definition forwarded_request : Request :=
  with_header {[ "X-Forwarded-For" := ["1.2.3.4, 5.6.7.6"] ]} plain_request.

(** A forwarding header that starts with a comma. *)
Definition leading_comma_request : Request :=
  with_header {[ "X-Forwarded-For" := [",5.6.7.6"] ]} plain_request.

Definition with_remote_addr (a : string) (r : Request) : Request := {|
  Method := Method r; Url := Url r; Proto := Proto r; Header := Header r;
  ContentLength := ContentLength r; Host := Host r;
  RemoteAddr := a; RequestURI := RequestURI r; Body := Body r;
  LocalAddr := LocalAddr r; ErrorLog := ErrorLog r;
|}.

(** A peer connected through a Unix socket: net/http gives ["@"] as its
    address. *)
Definition unix_peer_request : Request := with_remote_addr "@" plain_request.

(** A server listening on a Unix socket: its local address has no port. *)
Definition unix_socket_request : Request :=
  with_local_addr (Some "/run/app.sock") plain_request.

(** Two inbound headers. *)
Definition two_header_request : Request :=
  with_header {[ "Accept" := ["*/*"]; "Cookie" := ["a=b"] ]} plain_request.

Definition trailer_request : Request :=
  with_header {[ "Trailer" := ["Expires"] ]} plain_request.

(** A header value of 65536 bytes. *)
Definition huge_value : string :=
  String.concat "" (repeat "0123456789abcdef" 4096).

Definition huge_request : Request :=
  with_header {[ "Cookie" := [huge_value] ]} plain_request.

(** A query and a path of 40000 bytes each: every field fits, the
    HeaderSet does not. *)
Definition long_value : string :=
  String.concat "" (repeat "0123456789abcdef" 2500).

Definition wide_request : Request := {|
  Method := "GET";
  Url := {| RawQuery := long_value; Path := long_value; Scheme := "http" |};
  Proto := "HTTP/1.1";
  Header := ∅;
  ContentLength := 0;
  Host := "example.org";
  RemoteAddr := "9.9.9.9:555";
  RequestURI := "/";
  Body := [];
  LocalAddr := None;
  ErrorLog := false;
|}.

(** A world whose dial function answers [res] to every call and whose
    waits end as [sel]; the exchange after that succeeds with an empty 200
    reply. *)
Definition const_world (res : DialResult) (sel : SelectResult) : World := {|
  rangeHeader := [];
  dial := fun _ => res;
  selectCase := fun _ => sel;
  packetCopy := true;
  bodyCopy := true;
  readResponse := Some {| StatusCode := 200; RespHeader := ∅; RespBody := [] |};
  rangeRespHeader := [];
  wHeader0 := ∅;
|}.

(** A world whose dial function fails temporarily [k] times and then
    returns [res]; the wait after the call numbered [c] ends as
    [ContextDone], the others run to their end. *)
Definition retry_world (k : nat) (res : DialResult) (c : nat) : World := {|
  rangeHeader := [];
  dial := fun n => if (n <? k)%nat then DialErr (NetError true) else res;
  selectCase := fun n => if (n =? c)%nat then ContextDone else TimerFired;
  packetCopy := true;
  bodyCopy := true;
  readResponse := Some {| StatusCode := 200; RespHeader := ∅; RespBody := [] |};
  rangeRespHeader := [];
  wHeader0 := ∅;
|}.

(** A world whose dial function fails temporarily [k] times and then
    connects; every wait runs to its end and the exchange goes as the three
    last arguments say. *)
Definition exchange_world (k : nat) (packet_ok body_ok : bool)
    (resp : option Response) : World := {|
  rangeHeader := [];
  dial := fun n => if (n <? k)%nat then DialErr (NetError true) else DialOk;
  selectCase := fun _ => TimerFired;
  packetCopy := packet_ok;
  bodyCopy := body_ok;
  readResponse := resp;
  rangeRespHeader := [1%nat];
  wHeader0 := {[ "Server" := ["front"]; "Via" := ["1.1 front"] ]};
|}.

(** A reply of the backend. *)
Definition reply : Response := {|
  StatusCode := 201;
  RespHeader := {[ "Content-Type" := ["text/plain"]; "Server" := ["uwsgi"] ]};
  RespBody := list_byte_of_string "ok";
|}.

(** A request with a body and a Content-Type. *)
Definition post_request : Request := {|
  Method := "POST";
  Url := {| RawQuery := ""; Path := "/submit"; Scheme := "https" |};
  Proto := "HTTP/1.1";
  Header := {[ "Content-Type" := ["text/plain"]; "X-Forwarded-For" := ["1.2.3.4"] ]};
  ContentLength := 2;
  Host := "example.org";
  RemoteAddr := "9.9.9.9:555";
  RequestURI := "/submit";
  Body := list_byte_of_string "hi";
  LocalAddr := Some "10.0.0.1:8443";
  ErrorLog := true;
|}.

(** * Properties *)

Local Open Scope list_scope.

(** ** Bytes and 16-bit numbers *)

Lemma Z_of_byte_of_Z (x : Z) : Z_of_byte (byte_of_Z x) = x mod 2 ^ 8.
Proof.
  unfold Z_of_byte, byte_of_Z.
  assert (Hb : (Z.to_N (x mod 2 ^ 8) < 256)%N).
  { pose proof (Z.mod_pos_bound x (2 ^ 8) eq_refl). lia. }
  set (n := Z.to_N (x mod 2 ^ 8)) in *.
  pose proof (byte_of_ascii_via_N (ascii_of_N n)) as H.
  symmetry in H. apply Byte.to_of_N in H. rewrite H.
  rewrite N_ascii_embedding by exact Hb.
  subst n. rewrite Z2N.id; [reflexivity|].
  apply Z.mod_pos_bound. reflexivity.
Qed.

Lemma PutUint16_le16 (n : Z) :
  0 <= n <= maxSize -> PutUint16 (uint16 n) = le16 n.
Proof.
  unfold maxSize, PutUint16, uint16, le16. intros Hn.
  rewrite Z.mod_small by lia.
  rewrite Z.shiftr_div_pow2 by lia.
  unfold byte_of_Z. rewrite Z.mod_mod by lia. reflexivity.
Qed.

Lemma le16_value_le16 (n : Z) :
  0 <= n <= maxSize ->
  le16_value (byte_of_Z (n mod 256)) (byte_of_Z (n / 256)) = n.
Proof.
  unfold maxSize, le16_value. intros Hn.
  rewrite !Z_of_byte_of_Z.
  change (2 ^ 8) with 256.
  rewrite Z.mod_mod by lia.
  rewrite (Z.mod_small (n / 256)).
  - pose proof (Z.div_mod n 256). lia.
  - split; [apply Z.div_pos; lia | apply Z.div_lt_upper_bound; lia].
Qed.

Lemma length_list_byte_of_string (s : string) :
  length (list_byte_of_string s) = String.length s.
Proof.
  unfold list_byte_of_string. rewrite length_map.
  induction s as [|a s IH]; simpl; [reflexivity | now rewrite IH].
Qed.

Lemma len_nonneg (s : string) : 0 <= len s.
Proof. unfold len. lia. Qed.

Lemma totalSize_nonneg (hs : list hdr) : 0 <= totalSize hs.
Proof.
  induction hs as [|h hs IH]; simpl; [lia|].
  pose proof (len_nonneg (name h)). pose proof (len_nonneg (value h)). lia.
Qed.

Lemma totalSize_app (hs1 hs2 : list hdr) :
  totalSize (hs1 ++ hs2) = totalSize hs1 + totalSize hs2.
Proof. induction hs1 as [|h hs1 IH]; cbn [app totalSize]; lia. Qed.

Lemma totalSize_Permutation (hs1 hs2 : list hdr) :
  hs1 ≡ₚ hs2 -> totalSize hs1 = totalSize hs2.
Proof. induction 1; cbn [totalSize]; lia. Qed.

Lemma totalSize_In (h : hdr) (hs : list hdr) :
  In h hs -> len (name h) + len (value h) + 4 <= totalSize hs.
Proof.
  induction hs as [|h' hs IH]; cbn [In totalSize]; [tauto|].
  pose proof (totalSize_nonneg hs).
  pose proof (len_nonneg (name h')). pose proof (len_nonneg (value h')).
  intros [->|Hin]; [lia | apply IH in Hin; lia].
Qed.

(** ** Iteration over a map *)

Lemma insert_at_Permutation {A} (i : nat) (x : A) (l : list A) :
  insert_at i x l ≡ₚ x :: l.
Proof.
  unfold insert_at. rewrite <- Permutation_middle.
  now rewrite take_drop.
Qed.

Lemma shuffle_Permutation {A} (l : list A) : forall choices,
  shuffle choices l ≡ₚ l.
Proof.
  induction l as [|x l IH]; intros choices; cbn [shuffle]; [reflexivity|].
  rewrite insert_at_Permutation. now rewrite IH.
Qed.

(** Every order of the entries is the order of some iteration. *)
Lemma shuffle_complete {A} (l : list A) : forall l',
  l ≡ₚ l' -> exists choices, shuffle choices l = l'.
Proof.
  induction l as [|x l IH]; intros l' Hp.
  - apply Permutation_nil in Hp as ->. now exists [].
  - destruct (Permutation_vs_cons_inv (symmetry Hp)) as (l1 & l2 & ->).
    apply Permutation_cons_app_inv in Hp.
    destruct (IH _ Hp) as (choices & Hc).
    exists (length l1 :: choices). cbn [shuffle hd tl]. rewrite Hc.
    unfold insert_at. rewrite length_app.
    rewrite Nat.mod_small by lia.
    now rewrite take_app_length, drop_app_length.
Qed.

(** A range over a map yields exactly the entries of the map. *)
Lemma elem_of_range_map {V} (choices : list nat) (m : gmap string V) k v :
  In (k, v) (range_map choices m) <-> m !! k = Some v.
Proof.
  unfold range_map. rewrite <- list_elem_of_In.
  rewrite shuffle_Permutation. apply elem_of_map_to_list.
Qed.

Lemma range_map_Permutation {V} (c1 c2 : list nat) (m : gmap string V) :
  range_map c1 m ≡ₚ range_map c2 m.
Proof. unfold range_map. now rewrite !shuffle_Permutation. Qed.

Lemma range_map_complete {V} (m : gmap string V) (l : list (string * V)) :
  map_to_list m ≡ₚ l -> exists choices, range_map choices m = l.
Proof. apply shuffle_complete. Qed.

Lemma all_headers_Permutation (c1 c2 : list nat) (r : Request) :
  all_headers c1 r ≡ₚ all_headers c2 r.
Proof.
  unfold all_headers. apply Permutation_app_head, Permutation_map,
    range_map_Permutation.
Qed.

(** ** The header mapper *)

Lemma too_large_false (h : hdr) :
  too_large h = false <-> len (name h) <= maxSize /\ len (value h) <= maxSize.
Proof. unfold too_large. rewrite orb_false_iff, !Z.ltb_ge. reflexivity. Qed.

Lemma header_loop_inr entries : forall headers hs,
  header_loop entries headers = inr hs ->
  hs = headers ++ map http_header entries /\
  Forall (fun kv => too_large (http_header kv) = false) entries.
Proof.
  induction entries as [|kv entries IH]; simpl; intros headers hs H.
  - inversion H. rewrite app_nil_r. auto.
  - destruct (too_large (http_header kv)) eqn:E; [discriminate|].
    apply IH in H as [-> HF]. rewrite <- app_assoc. auto.
Qed.

Lemma header_loop_ok entries : forall headers,
  Forall (fun kv => too_large (http_header kv) = false) entries ->
  header_loop entries headers = inr (headers ++ map http_header entries).
Proof.
  induction entries as [|kv entries IH]; simpl; intros headers HF.
  - now rewrite app_nil_r.
  - inversion HF as [|? ? Hkv HF']; subst. rewrite Hkv, IH by assumption.
    now rewrite <- app_assoc.
Qed.

Lemma header_loop_inl entries : forall headers code text,
  header_loop entries headers = inl (code, text) ->
  code = StatusRequestHeaderFieldsTooLarge /\
  exists kv, In kv entries /\ too_large (http_header kv) = true /\
             text = HeaderTooLarge kv.1.
Proof.
  induction entries as [|kv entries IH]; simpl; intros headers code text H.
  - discriminate.
  - destruct (too_large (http_header kv)) eqn:E.
    + inversion H; subst. split; [reflexivity|]. exists kv. auto.
    + apply IH in H as [-> (kv' & Hin & Hl & ->)].
      split; [reflexivity|]. exists kv'. auto.
Qed.

Lemma size_loop_Some headers : forall size size',
  size_loop headers size = Some size' ->
  size' = size + totalSize headers /\
  Forall (fun h => too_large h = false) headers.
Proof.
  induction headers as [|h headers IH]; simpl; intros size size' H.
  - inversion H. split; [lia | constructor].
  - destruct (too_large h) eqn:E; [discriminate|].
    apply IH in H as [-> HF]. split; [lia | now constructor].
Qed.

Lemma size_loop_ok headers : forall size,
  Forall (fun h => too_large h = false) headers ->
  size_loop headers size = Some (size + totalSize headers).
Proof.
  induction headers as [|h headers IH]; simpl; intros size HF.
  - f_equal. lia.
  - inversion HF as [|? ? Hh HF']; subst. rewrite Hh, IH by assumption.
    f_equal. lia.
Qed.

Lemma fits_not_too_large headers :
  totalSize headers <= maxSize ->
  Forall (fun h => too_large h = false) headers.
Proof.
  induction headers as [|h headers IH]; simpl; intros H; constructor.
  - apply too_large_false.
    pose proof (len_nonneg (name h)). pose proof (len_nonneg (value h)).
    pose proof (totalSize_nonneg headers). lia.
  - apply IH.
    pose proof (len_nonneg (name h)). pose proof (len_nonneg (value h)). lia.
Qed.

(** What a successful run of the mapper returns. *)
Lemma header_mapper_inr choices r hs size :
  header_mapper choices r = inr (hs, size) ->
  Get (Header r) "Trailer" = "" /\
  hs = all_headers choices r /\
  size = totalSize hs /\
  size <= maxSize.
Proof.
  unfold header_mapper, all_headers. intros H.
  destruct (bool_decide (Get (Header r) "Trailer" = "")) eqn:Et;
    simpl in H; [|discriminate].
  apply bool_decide_eq_true in Et.
  destruct (header_loop _ _) as [e|headers] eqn:El; [discriminate|].
  apply header_loop_inr in El as [-> _].
  destruct (size_loop _ 0) as [sz|] eqn:Es; [|discriminate].
  apply size_loop_Some in Es as [-> _].
  destruct (maxSize <? _) eqn:Em; [discriminate|].
  apply Z.ltb_ge in Em. inversion H; subst. auto.
Qed.

(** The mapper succeeds exactly on the requests without trailers whose
    HeaderSet fits. *)
Lemma header_mapper_ok choices r :
  Get (Header r) "Trailer" = "" ->
  totalSize (all_headers choices r) <= maxSize ->
  header_mapper choices r =
    inr (all_headers choices r, totalSize (all_headers choices r)).
Proof.
  unfold header_mapper, all_headers. intros Ht Hs.
  rewrite bool_decide_eq_true_2 by exact Ht. cbn [negb].
  pose proof (fits_not_too_large _ Hs) as HF.
  rewrite header_loop_ok.
  - rewrite size_loop_ok by exact HF. rewrite Z.add_0_l.
    destruct (maxSize <? _) eqn:Em; [apply Z.ltb_lt in Em; lia | reflexivity].
  - apply Forall_app in HF as [_ HF].
    apply Forall_map in HF. exact HF.
Qed.

(** Every error response of the mapper is a 400, for a request with
    trailers, or a 431. *)
Lemma header_mapper_inl choices r code text :
  header_mapper choices r = inl (code, text) ->
  (code = StatusBadRequest /\ Get (Header r) "Trailer" <> "") \/
  (code = StatusRequestHeaderFieldsTooLarge /\ Get (Header r) "Trailer" = "").
Proof.
  unfold header_mapper. intros H.
  destruct (bool_decide (Get (Header r) "Trailer" = "")) eqn:Et; cbn [negb] in H.
  - apply bool_decide_eq_true in Et. right. split; [|exact Et].
    destruct (header_loop _ _) as [[c t]|headers] eqn:El.
    + inversion H; subst. now apply header_loop_inl in El as [-> _].
    + destruct (size_loop _ 0) as [sz|]; [|now inversion H].
      destruct (maxSize <? sz); [now inversion H | discriminate].
  - apply bool_decide_eq_false in Et. left. now inversion H.
Qed.

(** A HeaderSet beyond the bound is rejected with a 400 or a 431. *)
Lemma header_mapper_too_big choices r :
  maxSize < totalSize (all_headers choices r) ->
  exists code text,
    header_mapper choices r = inl (code, text) /\
    (code = StatusBadRequest \/ code = StatusRequestHeaderFieldsTooLarge).
Proof.
  intros Hbig.
  destruct (header_mapper choices r) as [[code text]|[hs size]] eqn:E.
  - exists code, text. split; [reflexivity|].
    apply header_mapper_inl in E. tauto.
  - apply header_mapper_inr in E as (_ & -> & -> & Hle). lia.
Qed.

(** What a successful run of the mapper of the second version returns. *)
Lemma Part000_header_mapper_inr choices r hs size :
  Part000.header_mapper choices r = inr (hs, size) ->
  hs = Part000.positional_headers r
       ++ map http_header (range_map choices (Header r)) /\
  size = totalSize hs /\
  size <= maxSize.
Proof.
  unfold Part000.header_mapper. intros H.
  destruct (negb _); [discriminate|].
  destruct (header_loop _ _) as [e|headers] eqn:El; [discriminate|].
  apply header_loop_inr in El as [-> _].
  destruct (size_loop _ 0) as [sz|] eqn:Es; [|discriminate].
  apply size_loop_Some in Es as [-> _].
  destruct (maxSize <? _) eqn:Em; [discriminate|].
  apply Z.ltb_ge in Em. inversion H; subst. auto.
Qed.

(** ** The positional fields *)

Lemma values_of_app n hs1 hs2 :
  values_of n (hs1 ++ hs2) = values_of n hs1 ++ values_of n hs2.
Proof. unfold values_of. apply flat_map_app. Qed.

Lemma prefix_append (s t : string) : String.prefix s (s ++ t)%string = true.
Proof.
  induction s as [|a s IH]; [now destruct t|].
  change (String.prefix (String a s) (String a (s ++ t)%string) = true).
  cbn [String.prefix]. destruct (ascii_dec a a); [exact IH | congruence].
Qed.

(** A transformed inbound header is never called like a positional field:
    its name starts with [HTTP_]. *)
Lemma values_of_http_headers n entries :
  String.prefix "HTTP_" n = false ->
  values_of n (map http_header entries) = [].
Proof.
  intros Hn. induction entries as [|kv entries IH]; [reflexivity|].
  cbn [map]. change (?x :: ?l) with ([x] ++ l).
  rewrite values_of_app, IH, app_nil_r.
  unfold values_of, http_header. cbn [flat_map name app].
  destruct (String.eqb_spec
              ("HTTP_" ++ Go_strings.Map
                 (fun c => if Ascii.eqb c "-" then "_"%char
                           else Go_unicode.ToUpper c) kv.1) n) as [E|E];
    [|reflexivity].
  subst n. rewrite prefix_append in Hn. discriminate.
Qed.

Lemma values_of_all_headers n choices r :
  String.prefix "HTTP_" n = false ->
  values_of n (all_headers choices r) =
    values_of n (fixed_headers r) ++ values_of n (port_headers r)
    ++ values_of n (remote_headers r).
Proof.
  intros Hn. unfold all_headers, positional_headers.
  rewrite !values_of_app, values_of_http_headers by exact Hn.
  now rewrite app_nil_r.
Qed.

Lemma values_of_remote_headers n r :
  n <> "REMOTE_ADDR" -> n <> "REMOTE_PORT" ->
  values_of n (remote_headers r) = [].
Proof.
  intros Ha Hp. unfold remote_headers.
  apply String.eqb_neq in Ha, Hp. rewrite String.eqb_sym in Ha, Hp.
  destruct (negb _), (Go_net.SplitHostPort _) as [[host port]|];
    unfold values_of; cbn [app flat_map name]; rewrite ?Ha, ?Hp; reflexivity.
Qed.

Lemma is_https_spec r :
  is_https r = true <->
  Scheme (Url r) = "https" \/ Get (Header r) "X-Forwarded-Proto" = "https".
Proof.
  unfold is_https. rewrite orb_true_iff, !bool_decide_eq_true. reflexivity.
Qed.

Lemma IndexByte_range (s : string) (c : ascii) :
  Go_strings.IndexByte s c = -1 \/ 0 <= Go_strings.IndexByte s c.
Proof.
  induction s as [|a s IH]; cbn [Go_strings.IndexByte]; [now left|].
  destruct (Ascii.eqb a c); [right; lia|].
  destruct (Z.ltb_spec (Go_strings.IndexByte s c) 0); [now left | right; lia].
Qed.

(** [leftmost_entry] is the string up to its first comma, or all of it
    when it has none. *)
Lemma leftmost_entry_IndexByte (s : string) :
  leftmost_entry s =
    if Go_strings.IndexByte s "," <? 0 then s
    else slice s 0 (Go_strings.IndexByte s ",").
Proof.
  induction s as [|a s IH]; [reflexivity|].
  cbn [leftmost_entry Go_strings.IndexByte].
  destruct (Ascii.eqb a ","); [reflexivity|].
  rewrite IH.
  destruct (IndexByte_range s ",") as [E|E].
  - rewrite E. reflexivity.
  - destruct (Z.ltb_spec (Go_strings.IndexByte s ",") 0) as [|_]; [lia|].
    destruct (Z.ltb_spec (Go_strings.IndexByte s "," + 1) 0) as [|_]; [lia|].
    unfold slice. rewrite !Z.sub_0_r.
    rewrite Z2Nat.inj_add by lia.
    change (Z.to_nat 0) with 0%nat. change (Z.to_nat 1) with 1%nat.
    rewrite Nat.add_1_r. reflexivity.
Qed.

(** What the handler takes from the forwarding header: its left-most
    entry, unless the header starts with a comma. *)
Lemma forwarded_addr_spec (s : string) :
  forwarded_addr s =
    if bool_decide (byte_at s 0 = Some ","%char) then s else leftmost_entry s.
Proof.
  unfold forwarded_addr. rewrite leftmost_entry_IndexByte.
  destruct s as [|a s]; [reflexivity|].
  cbn [Go_strings.IndexByte]. unfold byte_at. cbn [Z.to_nat String.get].
  destruct (Ascii.eqb_spec a ",") as [->|Hne].
  - rewrite bool_decide_eq_true_2 by reflexivity. reflexivity.
  - rewrite bool_decide_eq_false_2 by (intros [= Ha]; exact (Hne Ha)).
    destruct (IndexByte_range s ",") as [E|E].
    + rewrite E. reflexivity.
    + destruct (Z.ltb_spec (Go_strings.IndexByte s ",") 0) as [|_]; [lia|].
      destruct (Z.ltb_spec 0 (Go_strings.IndexByte s "," + 1)) as [_|]; [|lia].
      destruct (Z.ltb_spec (Go_strings.IndexByte s "," + 1) 0) as [|_]; [lia|].
      reflexivity.
Qed.

Lemma decimal_value_FormatInt (i : Z) :
  decimal_value (Go_strconv.FormatInt i) = Some i.
Proof.
  unfold decimal_value, Go_strconv.FormatInt.
  rewrite NilZero.isi.
  - cbn [option_map]. now rewrite DecimalZ.of_to.
  - destruct i as [|p|p]; cbn [Z.to_int]; try discriminate.
    intros [= H]. exact (DecimalPos.Unsigned.to_uint_nonnil p H).
  - destruct i as [|p|p]; cbn [Z.to_int]; try discriminate.
    intros [= H]. exact (DecimalPos.Unsigned.to_uint_nonnil p H).
Qed.

(** ** The packet encoder and the decoder *)

Lemma fold_left_write_hdr headers : forall buf,
  fold_left write_hdr headers buf = buf ++ flat_map (write_hdr []) headers.
Proof.
  induction headers as [|h headers IH]; intros buf; cbn [fold_left flat_map].
  - now rewrite app_nil_r.
  - rewrite IH.
    change (write_hdr buf h) with (buf ++ write_hdr [] h).
    now rewrite <- app_assoc.
Qed.

Lemma write_hdr_spec_pair (h : hdr) :
  too_large h = false -> write_hdr [] h = spec_pair h.
Proof.
  intros [Hn Hv]%too_large_false. unfold write_hdr, spec_pair.
  rewrite !PutUint16_le16; [reflexivity | |];
    split; auto using len_nonneg.
Qed.

Lemma packet_spec_packet (headers : list hdr) :
  totalSize headers <= maxSize ->
  packet headers (totalSize headers) = spec_packet headers.
Proof.
  intros Hfit. unfold packet, spec_packet, uwsgiHeader.
  rewrite fold_left_write_hdr.
  rewrite PutUint16_le16 by (split; [apply totalSize_nonneg | exact Hfit]).
  assert (Hpairs : flat_map (write_hdr []) headers = flat_map spec_pair headers).
  { pose proof (fits_not_too_large _ Hfit) as HF.
    induction HF as [|h hs Hh _ IH]; cbn [flat_map]; [reflexivity|].
    rewrite write_hdr_spec_pair by exact Hh. f_equal. apply IH.
    cbn [totalSize] in Hfit.
    pose proof (len_nonneg (name h)). pose proof (len_nonneg (value h)). lia. }
  rewrite Hpairs. unfold le16. reflexivity.
Qed.

Lemma length_spec_pair (h : hdr) :
  Z.of_nat (length (spec_pair h)) = len (name h) + len (value h) + 4.
Proof.
  unfold spec_pair, le16, len.
  rewrite !length_app, !length_list_byte_of_string. cbn [length]. lia.
Qed.

Lemma length_spec_pairs (headers : list hdr) :
  Z.of_nat (length (flat_map spec_pair headers)) = totalSize headers.
Proof.
  induction headers as [|h headers IH]; cbn [flat_map totalSize]; [reflexivity|].
  rewrite length_app, Nat2Z.inj_add, length_spec_pair, IH. lia.
Qed.

Lemma read_string_app (s : string) (rest : list byte) :
  read_string (len s) (list_byte_of_string s ++ rest) = Some (s, rest).
Proof.
  unfold read_string, len.
  rewrite length_app, length_list_byte_of_string, Nat2Z.id.
  destruct (Z.leb_spec (Z.of_nat (String.length s))
              (Z.of_nat (String.length s + length rest))); [|lia].
  rewrite <- (length_list_byte_of_string s).
  rewrite take_app_length, drop_app_length.
  now rewrite string_of_list_byte_of_string.
Qed.

Lemma read_u16_le16 (n : Z) (rest : list byte) :
  0 <= n <= maxSize -> read_u16 (le16 n ++ rest) = Some (n, rest).
Proof.
  intros Hn. unfold le16. cbn [app read_u16].
  now rewrite le16_value_le16.
Qed.

Lemma decode_pairs_spec (headers : list hdr) : forall fuel,
  Forall (fun h => too_large h = false) headers ->
  (length headers <= fuel)%nat ->
  decode_pairs fuel (flat_map spec_pair headers) = Some headers.
Proof.
  induction headers as [|h headers IH]; intros fuel HF Hfuel.
  - destruct fuel; reflexivity.
  - inversion HF as [|? ? Hh HF']; subst.
    apply too_large_false in Hh as [Hn Hv].
    destruct fuel as [|fuel]; [cbn in Hfuel; lia|].
    cbn [flat_map]. unfold spec_pair at 1. rewrite <- !app_assoc.
    remember (list_byte_of_string (name h) ++ _) as tail1 eqn:E1.
    unfold le16 at 1. cbn [app decode_pairs]. subst tail1.
    cbn [read_u16]. rewrite le16_value_le16 by (split; auto using len_nonneg).
    cbn [mbind option_bind]. rewrite read_string_app.
    cbn [mbind option_bind].
    rewrite read_u16_le16 by (split; auto using len_nonneg).
    cbn [mbind option_bind]. rewrite read_string_app.
    cbn [mbind option_bind].
    rewrite IH by (auto; cbn in Hfuel; lia).
    destruct h; reflexivity.
Qed.

Lemma decode_spec_packet (headers : list hdr) :
  totalSize headers <= maxSize -> decode (spec_packet headers) = Some headers.
Proof.
  intros Hfit. unfold spec_packet, le16. cbn [app decode].
  rewrite le16_value_le16 by (split; [apply totalSize_nonneg | exact Hfit]).
  rewrite length_spec_pairs, Z.leb_refl.
  rewrite <- length_spec_pairs, Nat2Z.id, firstn_all.
  apply decode_pairs_spec; [apply fits_not_too_large; exact Hfit|].
  assert (H : forall hs, (length hs <= length (flat_map spec_pair hs))%nat).
  { induction hs as [|h hs IH]; cbn [flat_map length]; [lia|].
    rewrite length_app. pose proof (length_spec_pair h).
    pose proof (len_nonneg (name h)). pose proof (len_nonneg (value h)). lia. }
  apply H.
Qed.

(** ** The connection loop *)

Lemma next_delay_double (d : Z) :
  0 < d <= Second -> next_delay d = 2 * d.
Proof.
  unfold next_delay, wrap64, Second, Millisecond. intros Hd.
  destruct (Z.eqb_spec d 0); [lia|].
  rewrite Z.mod_small; lia.
Qed.

Lemma next_delay_first : next_delay 0 = 5 * Millisecond.
Proof. reflexivity. Qed.

(** One turn of the loop. *)
Lemma dial_loop_S fuel w r n tempDelay :
  dial_loop (S fuel) w r n tempDelay =
    match dial w n with
    | DialOk => ([EvDial DialOk], Connected)
    | DialErr Canceled => ([EvDial (DialErr Canceled)], Panicked)
    | DialErr (NetError true) =>
        if Second <? next_delay tempDelay then
          (EvDial (DialErr (NetError true)) :: logf r (LogConnect (NetError true))
             ++ [EvError StatusGatewayTimeout (StatusText StatusGatewayTimeout)],
           Failed)
        else
          match selectCase w n with
          | TimerFired =>
              let '(evs, e) := dial_loop fuel w r (S n) (next_delay tempDelay) in
              (EvDial (DialErr (NetError true))
                 :: EvWait (next_delay tempDelay) TimerFired :: evs, e)
          | ContextDone =>
              ([EvDial (DialErr (NetError true));
                EvWait (next_delay tempDelay) ContextDone], Panicked)
          end
    | DialErr err =>
        (EvDial (DialErr err) :: logf r (LogConnect err)
           ++ [EvError StatusServiceUnavailable
                 (StatusText StatusServiceUnavailable)],
         Failed)
    end.
Proof. reflexivity. Qed.

(** The loop ends within [k + 1] turns once [2 ^ k] times the next delay
    is beyond a second; more fuel changes nothing. *)
Lemma dial_loop_enough (w : World) (r : Request) (k : nat) :
  forall fuel n tempDelay,
    Second < 2 ^ Z.of_nat k * next_delay tempDelay ->
    (k < fuel)%nat ->
    snd (dial_loop fuel w r n tempDelay) <> OutOfFuel /\
    dial_loop fuel w r n tempDelay = dial_loop (S k) w r n tempDelay.
Proof.
  induction k as [|k IH]; intros fuel n tempDelay Hk Hfuel;
    (destruct fuel as [|fuel]; [lia|]);
    [rewrite (dial_loop_S fuel), (dial_loop_S 0)
    |rewrite (dial_loop_S fuel), (dial_loop_S (S k))];
    destruct (dial w n) as [|[|[]|]]; cbn [snd];
    try (split; [discriminate|reflexivity]).
  - rewrite Z.pow_0_r, Z.mul_1_l in Hk.
    apply Z.ltb_lt in Hk. rewrite Hk. cbn [snd].
    split; [discriminate|reflexivity].
  - destruct (Second <? next_delay tempDelay) eqn:E; cbn [snd];
      [split; [discriminate|reflexivity]|].
    destruct (selectCase w n); cbn [snd]; [|split; [discriminate|reflexivity]].
    apply Z.ltb_ge in E.
    assert (Hpos : 0 < next_delay tempDelay).
    { rewrite Nat2Z.inj_succ, Z.pow_succ_r in Hk by lia.
      assert (0 < 2 ^ Z.of_nat k) by (apply Z.pow_pos_nonneg; lia).
      unfold Second, Millisecond in Hk. nia. }
    destruct (IH fuel (S n) (next_delay tempDelay)) as [Hne Heq].
    + rewrite next_delay_double by lia.
      rewrite Nat2Z.inj_succ, Z.pow_succ_r in Hk by lia. lia.
    + lia.
    + rewrite Heq in *.
      destruct (dial_loop (S k) w r (S n) (next_delay tempDelay)) as [evs e].
      cbn [snd] in *. split; [exact Hne | reflexivity].
Qed.

(** Nine turns are enough from the start of the loop, whatever the dial
    function and the timers do. *)
Lemma dial_loop_fuel (w : World) (r : Request) (fuel : nat) :
  (loop_fuel <= fuel)%nat ->
  snd (dial_loop fuel w r 0 0) <> OutOfFuel /\
  dial_loop fuel w r 0 0 = dial_loop loop_fuel w r 0 0.
Proof.
  intros Hfuel. apply (dial_loop_enough w r 8); [|unfold loop_fuel in Hfuel; lia].
  vm_compute. reflexivity.
Qed.

(** One more turn after a temporary failure and a wait that ran to its
    end. *)
Lemma dial_loop_retry w r fuel n tempDelay :
  dial w n = DialErr (NetError true) ->
  selectCase w n = TimerFired ->
  next_delay tempDelay <= Second ->
  dial_loop (S fuel) w r n tempDelay =
    (EvDial (DialErr (NetError true)) :: EvWait (next_delay tempDelay) TimerFired
       :: fst (dial_loop fuel w r (S n) (next_delay tempDelay)),
     snd (dial_loop fuel w r (S n) (next_delay tempDelay))).
Proof.
  intros Hd Hs Hle. rewrite dial_loop_S, Hd, Hs.
  apply Z.ltb_ge in Hle. rewrite Hle.
  now destruct (dial_loop fuel w r (S n) (next_delay tempDelay)).
Qed.

(** The turn that gives up. *)
Lemma dial_loop_give_up w r fuel n tempDelay :
  dial w n = DialErr (NetError true) ->
  Second < next_delay tempDelay ->
  dial_loop (S fuel) w r n tempDelay =
    (EvDial (DialErr (NetError true)) :: logf r (LogConnect (NetError true))
       ++ [EvError StatusGatewayTimeout (StatusText StatusGatewayTimeout)],
     Failed).
Proof.
  intros Hd Hlt. rewrite dial_loop_S, Hd.
  apply Z.ltb_lt in Hlt. now rewrite Hlt.
Qed.

(** The loop ends in a panic exactly when its last event is a
    cancellation; before that it only dials and waits, and a loop that ends
    otherwise has seen no cancellation. *)
Lemma dial_loop_cancellation (w : World) (r : Request) (fuel : nat) :
  forall n tempDelay evs e,
    dial_loop fuel w r n tempDelay = (evs, e) ->
    match e with
    | Panicked =>
        exists pre ev,
          evs = pre ++ [ev] /\ cancellation ev = true /\
          Forall (fun e => cancellation e = false /\ writes_response e = false
                           /\ connection_use e = false) pre
    | _ => Forall (fun e => cancellation e = false) evs
    end.
Proof.
  induction fuel as [|fuel IH]; intros n tempDelay evs e H.
  - inversion H; subst. constructor.
  - rewrite dial_loop_S in H. unfold logf in H.
    destruct (dial w n) as [|[|[]|]].
    + inversion H; subst. repeat constructor.
    + inversion H; subst. exists [], (EvDial (DialErr Canceled)).
      repeat split. constructor.
    + destruct (Second <? next_delay tempDelay).
      { inversion H; subst. destruct (ErrorLog r); repeat constructor. }
      destruct (selectCase w n).
      * destruct (dial_loop fuel w r (S n) (next_delay tempDelay))
          as [evs' e'] eqn:E.
        inversion H; subst. apply IH in E.
        destruct e.
        -- repeat (constructor; [reflexivity|]). exact E.
        -- repeat (constructor; [reflexivity|]). exact E.
        -- destruct E as (pre & ev & -> & Hev & Hpre).
           exists (EvDial (DialErr (NetError true))
                   :: EvWait (next_delay tempDelay) TimerFired :: pre), ev.
           repeat split; [exact Hev|].
           repeat (constructor; [repeat split; reflexivity|]). exact Hpre.
        -- repeat (constructor; [reflexivity|]). exact E.
      * inversion H; subst.
        exists [EvDial (DialErr (NetError true))],
               (EvWait (next_delay tempDelay) ContextDone).
        repeat split. repeat constructor.
    + inversion H; subst. destruct (ErrorLog r); repeat constructor.
    + inversion H; subst. destruct (ErrorLog r); repeat constructor.
Qed.

(** The connection loop writes nothing to a connection. *)
Lemma dial_loop_no_write (w : World) (r : Request) p ok (fuel : nat) :
  forall n tempDelay evs e,
    dial_loop fuel w r n tempDelay = (evs, e) -> ~ In (EvConnWrite p ok) evs.
Proof.
  induction fuel as [|fuel IH]; intros n d evs e E.
  - inversion E. tauto.
  - rewrite dial_loop_S in E. unfold logf in E.
    destruct (dial w n) as [|[|[]|]];
      try (inversion E; subst; destruct (ErrorLog r); cbn;
           intuition discriminate).
    destruct (Second <? next_delay d);
      [inversion E; subst; destruct (ErrorLog r); cbn;
       intuition discriminate|].
    destruct (selectCase w n);
      [|inversion E; subst; cbn; intuition discriminate].
    destruct (dial_loop fuel w r (S n) (next_delay d)) as [evs' e'] eqn:E'.
    inversion E; subst. apply IH in E'. cbn. intuition discriminate.
Qed.

(** ** The handler *)

(** What the handler does when the mapper rejects the request. *)
Lemma ServeHTTP_rejected w r code text :
  header_mapper (rangeHeader w) r = inl (code, text) ->
  ServeHTTP w r = ([EvError code text], Returned).
Proof. unfold ServeHTTP. now intros ->. Qed.

(** The handler writes to the connection the packet of the HeaderSet and
    size the mapper returned, and nothing else before it. *)
Lemma serve_conn_packet w r headers size p ok :
  In (EvConnWrite p ok) (serve_conn w r headers size) ->
  p = packet headers size.
Proof.
  unfold serve_conn, logf. intros H.
  apply in_app_or in H as [H|H].
  - destruct (packetCopy w), (bodyCopy w), (readResponse w), (ErrorLog r);
      cbn in H; intuition congruence.
  - cbn in H. intuition congruence.
Qed.

Lemma serve_conn_no_cancellation w r headers size :
  Forall (fun e => cancellation e = false) (serve_conn w r headers size).
Proof.
  unfold serve_conn, logf.
  destruct (packetCopy w), (bodyCopy w), (readResponse w), (ErrorLog r);
    repeat constructor.
Qed.

(** Whatever the handler writes to the connection with [io.Copy(conn, buf)]
    is the packet of the HeaderSet the mapper returned. *)
Lemma ServeHTTP_packet w r hs size p ok :
  header_mapper (rangeHeader w) r = inr (hs, size) ->
  In (EvConnWrite p ok) (fst (ServeHTTP w r)) -> p = packet hs size.
Proof.
  intros Hm. unfold ServeHTTP. rewrite Hm.
  destruct (dial_loop loop_fuel w r 0 0) as [evs e] eqn:E.
  apply (dial_loop_no_write _ _ p ok) in E.
  destruct e; cbn [fst]; try tauto.
  intros [H|H]%in_app_or; [tauto|].
  eapply serve_conn_packet, H.
Qed.

Lemma Part000_ServeHTTP_packet w r hs size p ok :
  Part000.header_mapper (rangeHeader w) r = inr (hs, size) ->
  In (EvConnWrite p ok) (fst (Part000.ServeHTTP w r)) -> p = packet hs size.
Proof.
  intros Hm. unfold Part000.ServeHTTP. rewrite Hm.
  destruct (dial_loop loop_fuel w r 0 0) as [evs e] eqn:E.
  apply (dial_loop_no_write _ _ p ok) in E.
  destruct e; cbn [fst]; try tauto.
  intros [H|H]%in_app_or; [tauto|].
  eapply serve_conn_packet, H.
Qed.

(** ** The claims of the specification *)

(** C1. For every HeaderSet whose total encoded size is at most 65535, the
    size the handler computes is the sum over the pairs of
    [len(name) + len(value) + 4], and the packet it builds for the backend
    connection is byte 0 equal to 0, bytes 1-2 that size as a little-endian
    16-bit number, byte 3 equal to 0, then for each pair in order the
    little-endian 16-bit length of the name, the raw name bytes, the
    little-endian 16-bit length of the value and the raw value bytes.  When
    the mapper returns this HeaderSet, whatever the handler (in either
    version) copies from its buffer to the connection is this packet. *)
Theorem packet_format (headers : list hdr) :
  totalSize headers <= maxSize ->
  size_loop headers 0 = Some (totalSize headers) /\
  packet headers (totalSize headers) =
    x00 :: le16 (totalSize headers) ++ x00 :: flat_map spec_pair headers /\
  (exists lo hi rest,
     packet headers (totalSize headers) = x00 :: lo :: hi :: x00 :: rest /\
     le16_value lo hi = totalSize headers) /\
  (forall w r p ok,
     header_mapper (rangeHeader w) r = inr (headers, totalSize headers) ->
     In (EvConnWrite p ok) (fst (ServeHTTP w r)) ->
     p = spec_packet headers) /\
  (forall w r p ok,
     Part000.header_mapper (rangeHeader w) r = inr (headers, totalSize headers) ->
     In (EvConnWrite p ok) (fst (Part000.ServeHTTP w r)) ->
     p = spec_packet headers).
Proof.
  intros Hfit. split; [|split; [|split; [|split]]].
  - rewrite size_loop_ok by (apply fits_not_too_large; exact Hfit).
    f_equal.
  - apply packet_spec_packet. exact Hfit.
  - rewrite packet_spec_packet by exact Hfit. unfold spec_packet, le16.
    eexists _, _, _. split; [reflexivity|].
    apply le16_value_le16. split; [apply totalSize_nonneg | exact Hfit].
  - intros w r p ok Hm Hin. rewrite <- packet_spec_packet by exact Hfit.
    eapply ServeHTTP_packet; eassumption.
  - intros w r p ok Hm Hin. rewrite <- packet_spec_packet by exact Hfit.
    eapply Part000_ServeHTTP_packet; eassumption.
Qed.

Lemma packet_format_witness :
  totalSize [mkhdr "PATH_INFO" "/app"; mkhdr "HTTP_X" ""] <= maxSize /\
  packet [mkhdr "PATH_INFO" "/app"; mkhdr "HTTP_X" ""] 27 =
    ([x00; x1b; x00; x00]
     ++ [x09; x00] ++ list_byte_of_string "PATH_INFO"
     ++ [x04; x00] ++ list_byte_of_string "/app"
     ++ [x06; x00] ++ list_byte_of_string "HTTP_X"
     ++ [x00; x00]).
Proof.
  assert (H : totalSize [mkhdr "PATH_INFO" "/app"; mkhdr "HTTP_X" ""] <= maxSize)
    by (vm_compute; discriminate).
  split; [exact H|].
  destruct (packet_format _ H) as (_ & Hp & _).
  exact Hp.
Defined.

(** C2. For every ordered sequence of pairs in which each name and each
    value is at most 65535 bytes and whose total encoded size is at most
    65535, decoding the packet the encoder produces (the 4-byte prefix, then
    length-prefixed names and values until the payload is consumed) gives
    back the same sequence. *)
Theorem decode_packet (headers : list hdr) :
  Forall (fun h => len (name h) <= maxSize /\ len (value h) <= maxSize) headers ->
  totalSize headers <= maxSize ->
  decode (packet headers (totalSize headers)) = Some headers.
Proof.
  intros _ Hfit. rewrite packet_spec_packet by exact Hfit.
  apply decode_spec_packet. exact Hfit.
Qed.

Lemma decode_packet_witness :
  decode (packet [mkhdr "PATH_INFO" "/app"; mkhdr "HTTP_X" ""] 27)
  = Some [mkhdr "PATH_INFO" "/app"; mkhdr "HTTP_X" ""].
Proof.
  apply (decode_packet [mkhdr "PATH_INFO" "/app"; mkhdr "HTTP_X" ""]).
  - repeat constructor; vm_compute; discriminate.
  - vm_compute; discriminate.
Defined.

(** C3. When the request passes the header mapper, every call of the dial
    function fails with a temporary error and every wait runs to its end,
    the handler waits 5ms, 10ms, 20ms, 40ms, 80ms, 160ms, 320ms and 640ms,
    one wait after each of the first eight calls; after the ninth call the
    next delay, 1280ms, is beyond a second, and the handler logs the error,
    answers 504 and returns.  The calls are 9 and the waits add up to
    1275ms whatever the world is. *)
Theorem backoff_until_timeout (w : World) (r : Request) (hs : list hdr)
    (size : Z) :
  header_mapper (rangeHeader w) r = inr (hs, size) ->
  (forall n, dial w n = DialErr (NetError true)) ->
  (forall n, selectCase w n = TimerFired) ->
  let evs := fst (ServeHTTP w r) in
  ServeHTTP w r =
    (flat_map retry backoff_delays
       ++ EvDial (DialErr (NetError true)) :: logf r (LogConnect (NetError true))
       ++ [EvError StatusGatewayTimeout (StatusText StatusGatewayTimeout)],
     Returned) /\
  waits evs = backoff_delays /\
  dial_count evs = 9%nat /\
  fold_right Z.add 0 (waits evs) = 1275 * Millisecond /\
  next_delay (640 * Millisecond) = 1280 * Millisecond /\
  Second < 1280 * Millisecond.
Proof.
  intros Hm Hdial Hsel evs.
  assert (Hrun : ServeHTTP w r =
    (flat_map retry backoff_delays
       ++ EvDial (DialErr (NetError true)) :: logf r (LogConnect (NetError true))
       ++ [EvError StatusGatewayTimeout (StatusText StatusGatewayTimeout)],
     Returned)).
  { unfold ServeHTTP. rewrite Hm. unfold loop_fuel.
    do 8 (rewrite dial_loop_retry by (auto; vm_compute; discriminate);
          cbn [fst snd]).
    rewrite dial_loop_give_up by (auto; vm_compute; reflexivity).
    reflexivity. }
  subst evs. rewrite Hrun. cbn [fst]. unfold logf.
  split; [reflexivity|].
  destruct (ErrorLog r); vm_compute; repeat split; reflexivity.
Qed.

Lemma backoff_until_timeout_witness :
  ServeHTTP (const_world (DialErr (NetError true)) TimerFired) plain_request =
    (flat_map retry backoff_delays
       ++ [EvDial (DialErr (NetError true));
           EvLog (LogConnect (NetError true));
           EvError StatusGatewayTimeout (StatusText StatusGatewayTimeout)],
     Returned).
Proof.
  refine (proj1 (backoff_until_timeout
                   (const_world (DialErr (NetError true)) TimerFired)
                   plain_request
                   (all_headers [] plain_request)
                   (totalSize (all_headers [] plain_request)) _ _ _)).
  - vm_compute. reflexivity.
  - intros n. reflexivity.
  - intros n. reflexivity.
Defined.

(** C4. If a transformed header name or value is longer than 65535 bytes
    (be it made from an inbound header or one of the positional fields), or
    every field is within the bound but the total encoded size is beyond
    65535, the handler answers with a 4xx status and returns: the error
    response is the only event, the dial function is not called and
    nothing is written to a backend connection. *)
Theorem oversize_rejected (w : World) (r : Request) :
  (exists k v, Header r !! k = Some v /\ too_large (http_header (k, v)) = true)
  \/ (exists h, In h (positional_headers r) /\ too_large h = true)
  \/ (Forall (fun h => too_large h = false) (all_headers (rangeHeader w) r) /\
      maxSize < totalSize (all_headers (rangeHeader w) r)) ->
  exists code text,
    ServeHTTP w r = ([EvError code text], Returned) /\
    400 <= code < 500 /\
    dial_count (fst (ServeHTTP w r)) = 0%nat /\
    Forall (fun e => backend_contact e = false) (fst (ServeHTTP w r)).
Proof.
  intros H.
  assert (Hbig : maxSize < totalSize (all_headers (rangeHeader w) r)).
  { assert (Hone : forall h, In h (all_headers (rangeHeader w) r) ->
                             too_large h = true ->
                             maxSize < totalSize (all_headers (rangeHeader w) r)).
    { intros h Hin Hl. apply totalSize_In in Hin.
      pose proof (len_nonneg (name h)). pose proof (len_nonneg (value h)).
      unfold too_large in Hl. apply orb_true_iff in Hl.
      rewrite !Z.ltb_lt in Hl. lia. }
    destruct H as [(k & v & Hkv & Hl)|[(h & Hin & Hl)|[_ Hbig]]];
      [| |exact Hbig].
    - apply (elem_of_range_map (rangeHeader w)) in Hkv.
      apply (Hone (http_header (k, v))); [|exact Hl].
      unfold all_headers. apply in_or_app. right.
      apply in_map_iff. exists (k, v). auto.
    - apply (Hone h); [|exact Hl].
      unfold all_headers. apply in_or_app. now left. }
  destruct (header_mapper_too_big _ _ Hbig) as (code & text & Hm & Hcode).
  exists code, text. rewrite (ServeHTTP_rejected _ _ _ _ Hm). cbn [fst].
  split; [reflexivity|]. split.
  - unfold StatusBadRequest, StatusRequestHeaderFieldsTooLarge in Hcode. lia.
  - split; [reflexivity|]. repeat constructor.
Qed.

Lemma oversize_rejected_witness :
  (exists code text,
     ServeHTTP (const_world DialOk TimerFired) huge_request
       = ([EvError code text], Returned) /\
     400 <= code < 500 /\
     dial_count (fst (ServeHTTP (const_world DialOk TimerFired) huge_request))
       = 0%nat /\
     Forall (fun e => backend_contact e = false)
       (fst (ServeHTTP (const_world DialOk TimerFired) huge_request))) /\
  (exists code text,
     ServeHTTP (const_world DialOk TimerFired) wide_request
       = ([EvError code text], Returned) /\
     400 <= code < 500 /\
     dial_count (fst (ServeHTTP (const_world DialOk TimerFired) wide_request))
       = 0%nat /\
     Forall (fun e => backend_contact e = false)
       (fst (ServeHTTP (const_world DialOk TimerFired) wide_request))).
Proof.
  split.
  - apply oversize_rejected. left.
    exists "Cookie", [huge_value]. split.
    + apply lookup_singleton_eq.
    + vm_compute. reflexivity.
  - apply oversize_rejected. right. right. split.
    + lazy -[long_value too_large].
      repeat constructor; vm_compute; reflexivity.
    + vm_compute. reflexivity.
Defined.

(** C5. A request whose header collection declares a Trailer header (its
    first value is not empty) is answered with status 400 and the handler
    returns at once: the error response is the only event, so the dial
    function is never called and no backend connection is used. *)
Theorem trailer_rejected (w : World) (r : Request) :
  Get (Header r) "Trailer" <> "" ->
  ServeHTTP w r = ([EvError StatusBadRequest TrailersNotSupported], Returned) /\
  400 <= StatusBadRequest < 500 /\
  dial_count (fst (ServeHTTP w r)) = 0%nat /\
  Forall (fun e => backend_contact e = false) (fst (ServeHTTP w r)).
Proof.
  intros Ht.
  assert (Hm : header_mapper (rangeHeader w) r
               = inl (StatusBadRequest, TrailersNotSupported)).
  { unfold header_mapper. now rewrite bool_decide_eq_false_2. }
  rewrite (ServeHTTP_rejected _ _ _ _ Hm). cbn [fst].
  split; [reflexivity|]. split; [unfold StatusBadRequest; lia|].
  split; [reflexivity | repeat constructor].
Qed.

Lemma trailer_rejected_witness :
  ServeHTTP (const_world DialOk TimerFired) trailer_request
  = ([EvError 400 TrailersNotSupported], Returned).
Proof.
  refine (proj1 (trailer_rejected (const_world DialOk TimerFired)
                   trailer_request _)).
  vm_compute. discriminate.
Defined.

(** C6. If in a run of the handler the dial function returns
    [context.Canceled], or the context is done during a wait of the
    backoff, the handler panics with [http.ErrAbortHandler]: no event of
    the run writes to the response or uses a backend connection, and the
    cancellation is the last event of the run, so no call of dial follows
    it. *)
Theorem cancellation_aborts (w : World) (r : Request) (evs : list event)
    (out : outcome) :
  ServeHTTP w r = (evs, out) ->
  Exists (fun e => cancellation e = true) evs ->
  out = Aborted /\
  Forall (fun e => writes_response e = false) evs /\
  Forall (fun e => connection_use e = false) evs /\
  exists pre ev,
    evs = pre ++ [ev] /\ cancellation ev = true /\
    Forall (fun e => cancellation e = false) pre.
Proof.
  unfold ServeHTTP. intros Hrun Hex.
  destruct (header_mapper (rangeHeader w) r) as [[code text]|[hs size]].
  { inversion Hrun; subst. apply Exists_cons in Hex as [Hex|Hex];
      [discriminate | inversion Hex]. }
  destruct (dial_loop loop_fuel w r 0 0) as [evs' e] eqn:E.
  apply dial_loop_cancellation in E.
  assert (Hno : forall l, Forall (fun e => cancellation e = false) l ->
                          Exists (fun e => cancellation e = true) l -> False).
  { intros l HF HE. apply Exists_exists in HE as (x & Hx & Hc).
    rewrite Forall_forall in HF. apply HF in Hx. congruence. }
  destruct e; inversion Hrun; subst.
  - exfalso.
    apply (Hno _ (Forall_app_2 _ _ _ E (serve_conn_no_cancellation _ _ _ _)) Hex).
  - exfalso. apply (Hno _ E Hex).
  - destruct E as (pre & ev & -> & Hev & Hpre).
    assert (Hlast : writes_response ev = false /\ connection_use ev = false).
    { destruct ev as [| [|[]] | ? [] | | | | | | |];
        try discriminate; split; reflexivity. }
    split; [reflexivity|]. split; [|split].
    + apply Forall_app_2.
      * eapply Forall_impl; [exact Hpre|]. now intros x (_ & Hx & _).
      * constructor; [apply Hlast | constructor].
    + apply Forall_app_2.
      * eapply Forall_impl; [exact Hpre|]. now intros x (_ & _ & Hx).
      * constructor; [apply Hlast | constructor].
    + exists pre, ev. repeat split; [exact Hev|].
      eapply Forall_impl; [exact Hpre|]. now intros x (Hx & _).
  - exfalso. apply (Hno _ E Hex).
Qed.

Lemma cancellation_aborts_witness :
  snd (ServeHTTP (retry_world 3 DialOk 1) plain_request) = Aborted /\
  snd (ServeHTTP (retry_world 3 (DialErr Canceled) 9) plain_request) = Aborted.
Proof.
  split.
  - refine (proj1 (cancellation_aborts (retry_world 3 DialOk 1) plain_request
                     (fst (ServeHTTP (retry_world 3 DialOk 1) plain_request))
                     _ _ _)).
    + vm_compute. reflexivity.
    + vm_compute. do 3 apply Exists_cons_tl. apply Exists_cons_hd. reflexivity.
  - refine (proj1 (cancellation_aborts
                     (retry_world 3 (DialErr Canceled) 9) plain_request
                     (fst (ServeHTTP (retry_world 3 (DialErr Canceled) 9)
                             plain_request))
                     _ _ _)).
    + vm_compute. reflexivity.
    + vm_compute. do 6 apply Exists_cons_tl. apply Exists_cons_hd. reflexivity.
Defined.

(** C7 (amended).  In the HeaderSet the mapper emits for a request whose
    scheme is https or whose X-Forwarded-Proto header is https, HTTPS is
    "on" and SERVER_PORT is "443", whatever the local address is.  For every
    other request SERVER_PORT is the port of the local address when the
    address is available and splits into host and port; no SERVER_PORT is
    emitted when the address is available and does not split; and
    SERVER_PORT is "80" when no local address is available. *)
Theorem server_port (choices : list nat) (r : Request) (hs : list hdr)
    (size : Z) :
  header_mapper choices r = inr (hs, size) ->
  (Scheme (Url r) = "https" \/ Get (Header r) "X-Forwarded-Proto" = "https" ->
   values_of "HTTPS" hs = ["on"] /\ values_of "SERVER_PORT" hs = ["443"]) /\
  (Scheme (Url r) <> "https" -> Get (Header r) "X-Forwarded-Proto" <> "https" ->
   values_of "SERVER_PORT" hs =
     match LocalAddr r with
     | Some addr =>
         match Go_net.SplitHostPort addr with
         | Some (_, port) => [port]
         | None => []
         end
     | None => ["80"]
     end).
Proof.
  intros (_ & -> & _)%header_mapper_inr.
  rewrite !values_of_all_headers by reflexivity.
  rewrite !values_of_remote_headers by discriminate.
  rewrite !app_nil_r. unfold port_headers. split.
  - intros Hs%is_https_spec. rewrite Hs. split; reflexivity.
  - intros H1 H2.
    destruct (is_https r) eqn:Hs; [apply is_https_spec in Hs; tauto|].
    destruct (LocalAddr r) as [addr|]; [|reflexivity].
    destruct (Go_net.SplitHostPort addr) as [[host port]|]; reflexivity.
Qed.

Lemma server_port_witness :
  values_of "SERVER_PORT" (all_headers [] (with_scheme "https" plain_request))
    = ["443"] /\
  values_of "SERVER_PORT" (all_headers [] plain_request) = ["8080"] /\
  values_of "SERVER_PORT" (all_headers [] (with_local_addr None plain_request))
    = ["80"].
Proof.
  split; [|split].
  - refine (proj2 (proj1 (server_port [] (with_scheme "https" plain_request)
                            _ _ _) _)).
    + vm_compute. reflexivity.
    + left. reflexivity.
  - refine (proj2 (server_port [] plain_request _ _ _) _ _).
    + vm_compute. reflexivity.
    + vm_compute. discriminate.
    + vm_compute. discriminate.
  - refine (proj2 (server_port [] (with_local_addr None plain_request) _ _ _)
              _ _).
    + vm_compute. reflexivity.
    + vm_compute. discriminate.
    + vm_compute. discriminate.
Defined.

(** C7, as stated, fails for a server that listens on a Unix socket: the
    request is not secure and its local address is available, and the
    HeaderSet has no SERVER_PORT at all. *)
Lemma server_port_counterexample :
  is_https unix_socket_request = false /\
  LocalAddr unix_socket_request = Some "/run/app.sock" /\
  exists hs size,
    header_mapper [] unix_socket_request = inr (hs, size) /\
    forall h, In h hs -> name h <> "SERVER_PORT".
Proof.
  split; [reflexivity|]. split; [reflexivity|].
  eexists _, _. split; [vm_compute; reflexivity|].
  intros h Hin. cbn in Hin.
  repeat (destruct Hin as [<-|Hin]; [discriminate|]).
  destruct Hin.
Qed.

(** C8 (amended).  In the HeaderSet the mapper emits for a request that
    carries a forwarding header (X-Forwarded-For with a first value that is
    not empty) which does not start with a comma, REMOTE_ADDR is the
    left-most comma-separated entry of that header, not the address of the
    directly connected peer; without a forwarding header REMOTE_ADDR is the
    host of the directly connected peer when the peer's address splits into
    host and port, and is not emitted otherwise.  REMOTE_PORT is the port of
    the directly connected peer whenever its address splits, with or
    without a forwarding header.  Nothing is said here of REMOTE_ADDR for a
    forwarding header that starts with a comma: the test [i > 0] of line 85
    then keeps the whole header, which is not the "leftmost value" the
    documentation of [Handler] announces (lines 46-47). *)
Theorem remote_addr (choices : list nat) (r : Request) (hs : list hdr)
    (size : Z) :
  header_mapper choices r = inr (hs, size) ->
  let s := Get (Header r) "X-Forwarded-For" in
  (s <> "" -> byte_at s 0 <> Some ","%char ->
   values_of "REMOTE_ADDR" hs = [leftmost_entry s]) /\
  (s = "" ->
   values_of "REMOTE_ADDR" hs =
     match Go_net.SplitHostPort (RemoteAddr r) with
     | Some (host, _) => [host]
     | None => []
     end) /\
  values_of "REMOTE_PORT" hs =
    match Go_net.SplitHostPort (RemoteAddr r) with
    | Some (_, port) => [port]
    | None => []
    end.
Proof.
  intros (_ & -> & _)%header_mapper_inr s.
  rewrite !values_of_all_headers by reflexivity.
  assert (Hport : forall n, n = "REMOTE_ADDR" \/ n = "REMOTE_PORT" ->
                            values_of n (port_headers r) = []).
  { intros n Hn. unfold port_headers.
    destruct (is_https r); [destruct Hn as [->| ->]; reflexivity|].
    destruct (LocalAddr r) as [addr|]; [|destruct Hn as [->| ->]; reflexivity].
    destruct (Go_net.SplitHostPort addr) as [[host port]|];
      destruct Hn as [->| ->]; reflexivity. }
  rewrite !Hport by auto. cbn [fixed_headers values_of flat_map name app].
  cbn [String.eqb Ascii.eqb Bool.eqb].
  unfold remote_headers. fold s.
  repeat split.
  - intros Hs Hc. rewrite bool_decide_eq_false_2 by exact Hs. cbn [negb].
    rewrite forwarded_addr_spec, bool_decide_eq_false_2 by exact Hc.
    destruct (Go_net.SplitHostPort (RemoteAddr r)) as [[host port]|];
      reflexivity.
  - intros Hs. rewrite bool_decide_eq_true_2 by exact Hs. cbn [negb].
    destruct (Go_net.SplitHostPort (RemoteAddr r)) as [[host port]|];
      reflexivity.
  - destruct (negb _), (Go_net.SplitHostPort (RemoteAddr r)) as [[host port]|];
      reflexivity.
Qed.

(** The example of the specification: forwarding header
    "1.2.3.4, 5.6.7.6", direct peer "9.9.9.9:555". *)
Lemma remote_addr_witness :
  values_of "REMOTE_ADDR" (all_headers [] forwarded_request) = ["1.2.3.4"] /\
  values_of "REMOTE_PORT" (all_headers [] forwarded_request) = ["555"].
Proof.
  destruct (remote_addr [] forwarded_request
              (all_headers [] forwarded_request)
              (totalSize (all_headers [] forwarded_request)))
    as (Haddr & _ & Hport).
  - vm_compute. reflexivity.
  - split; [apply Haddr; vm_compute; discriminate | exact Hport].
Defined.

(** C8, as stated, fails for a request without forwarding header whose peer
    address has no port, as that of a peer connected through a Unix socket:
    the address does not split into host and port (the guard [err == nil]
    of line 91), and no REMOTE_ADDR is emitted. *)
Lemma remote_addr_counterexample :
  Get (Header unix_peer_request) "X-Forwarded-For" = "" /\
  RemoteAddr unix_peer_request = "@" /\
  Go_net.SplitHostPort (RemoteAddr unix_peer_request) = None /\
  exists hs size,
    header_mapper [] unix_peer_request = inr (hs, size) /\
    values_of "REMOTE_ADDR" hs = [] /\
    forall h, In h hs -> name h <> "REMOTE_ADDR".
Proof.
  split; [reflexivity|]. split; [reflexivity|]. split; [reflexivity|].
  eexists _, _. split; [vm_compute; reflexivity|]. split; [reflexivity|].
  intros h Hin. cbn in Hin.
  repeat (destruct Hin as [<-|Hin]; [discriminate|]).
  destruct Hin.
Qed.

(** C9 (amended).  Two runs of the header mapper on the same request, each
    with its own iteration order of the header map, either both reject the
    request with the same status or both emit a HeaderSet.  The two sets
    have the same total size, both start with the same positional pairs,
    whose first eight names are fixed, and continue with the transformed
    inbound headers; these are the same pairs in both runs, one for each
    entry of the header map, and their order is that of the iteration,
    which need not be the same in the two runs. *)
Theorem header_order (r : Request) (c1 c2 : list nat) :
  match header_mapper c1 r, header_mapper c2 r with
  | inr (hs1, size1), inr (hs2, size2) =>
      size1 = size2 /\
      map name (take 8 hs1) =
        ["QUERY_STRING"; "REQUEST_METHOD"; "CONTENT_TYPE"; "CONTENT_LENGTH";
         "REQUEST_URI"; "PATH_INFO"; "SERVER_PROTOCOL"; "SERVER_NAME"] /\
      exists rest1 rest2,
        hs1 = positional_headers r ++ rest1 /\
        hs2 = positional_headers r ++ rest2 /\
        rest1 = map http_header (range_map c1 (Header r)) /\
        rest2 = map http_header (range_map c2 (Header r)) /\
        rest1 ≡ₚ rest2 /\
        rest1 ≡ₚ map http_header (map_to_list (Header r))
  | inl (code1, _), inl (code2, _) => code1 = code2
  | _, _ => False
  end.
Proof.
  pose proof (totalSize_Permutation _ _ (all_headers_Permutation c1 c2 r)) as Hsz.
  destruct (header_mapper c1 r) as [[code1 text1]|[hs1 size1]] eqn:E1;
    destruct (header_mapper c2 r) as [[code2 text2]|[hs2 size2]] eqn:E2.
  - apply header_mapper_inl in E1, E2.
    destruct E1 as [[-> H1]|[-> H1]], E2 as [[-> H2]|[-> H2]];
      congruence.
  - apply header_mapper_inr in E2 as (Ht & -> & -> & Hle).
    rewrite <- Hsz in Hle.
    rewrite (header_mapper_ok c1 r Ht Hle) in E1. discriminate.
  - apply header_mapper_inr in E1 as (Ht & -> & -> & Hle).
    rewrite Hsz in Hle.
    rewrite (header_mapper_ok c2 r Ht Hle) in E2. discriminate.
  - apply header_mapper_inr in E1 as (_ & -> & -> & _).
    apply header_mapper_inr in E2 as (_ & -> & -> & _).
    split; [exact Hsz|]. split; [reflexivity|].
    eexists _, _. repeat split.
    + apply Permutation_map, range_map_Permutation.
    + apply Permutation_map. unfold range_map. apply shuffle_Permutation.
Qed.

(** C9, as stated, fails for a request with two inbound headers: two runs
    of the mapper that iterate over the header map in different orders emit
    different sequences. *)
Lemma header_order_counterexample :
  exists hs1 hs2 size,
    header_mapper [0%nat] two_header_request = inr (hs1, size) /\
    header_mapper [1%nat] two_header_request = inr (hs2, size) /\
    map name (drop 11 hs1) = ["HTTP_COOKIE"; "HTTP_ACCEPT"] /\
    map name (drop 11 hs2) = ["HTTP_ACCEPT"; "HTTP_COOKIE"] /\
    hs1 <> hs2.
Proof.
  eexists _, _, _. split; [vm_compute; reflexivity|].
  split; [vm_compute; reflexivity|].
  split; [reflexivity|]. split; [reflexivity|]. discriminate.
Qed.

(** C10.  In every HeaderSet the mapper emits, the fourth pair is
    CONTENT_LENGTH with the signed decimal rendering of the request's
    declared content length (reading the numeral back gives the length), and
    no other pair has that name; a request whose length is unknown,
    declared as -1, gets the pair CONTENT_LENGTH "-1"; every packet the
    handler writes to the backend connection is the encoding of that
    HeaderSet.  The same holds for the second version of the handler. *)
Theorem content_length (w : World) (r : Request) (hs : list hdr) (size : Z) :
  header_mapper (rangeHeader w) r = inr (hs, size)
  \/ Part000.header_mapper (rangeHeader w) r = inr (hs, size) ->
  hs !! 3%nat =
    Some (mkhdr "CONTENT_LENGTH" (Go_strconv.FormatInt (ContentLength r))) /\
  values_of "CONTENT_LENGTH" hs = [Go_strconv.FormatInt (ContentLength r)] /\
  decimal_value (Go_strconv.FormatInt (ContentLength r))
    = Some (ContentLength r) /\
  (ContentLength r = -1 -> hs !! 3%nat = Some (mkhdr "CONTENT_LENGTH" "-1")) /\
  (forall p ok,
     (header_mapper (rangeHeader w) r = inr (hs, size) ->
      In (EvConnWrite p ok) (fst (ServeHTTP w r)) -> p = packet hs size) /\
     (Part000.header_mapper (rangeHeader w) r = inr (hs, size) ->
      In (EvConnWrite p ok) (fst (Part000.ServeHTTP w r)) ->
      p = packet hs size)).
Proof.
  intros Hm.
  assert (Hfour : hs !! 3%nat =
    Some (mkhdr "CONTENT_LENGTH" (Go_strconv.FormatInt (ContentLength r)))).
  { destruct Hm as [(_ & -> & _)%header_mapper_inr
                   |(-> & _)%Part000_header_mapper_inr]; reflexivity. }
  split; [exact Hfour|]. split; [|split; [apply decimal_value_FormatInt|split]].
  - destruct Hm as [(_ & -> & _)%header_mapper_inr
                   |(-> & _)%Part000_header_mapper_inr].
    + rewrite values_of_all_headers by reflexivity.
      rewrite !values_of_remote_headers by discriminate.
      unfold port_headers.
      destruct (is_https r); [reflexivity|].
      destruct (LocalAddr r) as [addr|]; [|reflexivity].
      destruct (Go_net.SplitHostPort addr) as [[host port]|]; reflexivity.
    + unfold Part000.positional_headers.
      rewrite !values_of_app, values_of_http_headers by reflexivity.
      destruct (bool_decide _),
        (Go_net.SplitHostPort (RemoteAddr r)) as [[host port]|],
        (LocalAddr r) as [addr|];
        try destruct (Go_net.SplitHostPort addr) as [[host' port']|];
        reflexivity.
  - intros Hcl. rewrite Hfour, Hcl. reflexivity.
  - intros p ok. split.
    + apply ServeHTTP_packet.
    + apply Part000_ServeHTTP_packet.
Qed.

Lemma content_length_witness :
  all_headers [] (with_content_length (-1) plain_request) !! 3%nat
  = Some (mkhdr "CONTENT_LENGTH" "-1").
Proof.
  refine (proj1 (proj2 (proj2 (proj2
    (content_length (const_world DialOk TimerFired)
       (with_content_length (-1) plain_request) _ _ (or_introl _))))) _).
  - vm_compute. reflexivity.
  - reflexivity.
Defined.

(** * Further properties of the code *)

(** ** The runs of the connection loop *)

Lemma schedule_backoff : schedule 0 backoff_delays.
Proof. vm_compute. repeat split; discriminate. Qed.

(** With the delays [ds] ahead and more fuel than delays, a run of the
    loop is one of the runs [loop_run] describes. *)
Lemma dial_loop_run (w : World) (r : Request) (ds : list Z) :
  forall fuel n tempDelay,
    schedule tempDelay ds -> (length ds < fuel)%nat ->
    loop_run r ds (fst (dial_loop fuel w r n tempDelay))
                  (snd (dial_loop fuel w r n tempDelay)).
Proof.
  induction ds as [|d ds IH]; intros fuel n tempDelay Hs Hfuel;
    cbn [length] in Hfuel; (destruct fuel as [|fuel]; [lia|]);
    rewrite dial_loop_S; cbn [schedule] in Hs;
    destruct (dial w n) as [|[|[]|]]; cbn [fst snd];
    try (constructor; auto; fail).
  - apply Z.ltb_lt in Hs. rewrite Hs. cbn [fst snd]. constructor.
  - destruct Hs as (-> & Hle & Hs).
    apply Z.ltb_ge in Hle. rewrite Hle.
    destruct (selectCase w n); [|constructor].
    specialize (IH fuel (S n) (next_delay tempDelay) Hs ltac:(lia)).
    destruct (dial_loop fuel w r (S n) (next_delay tempDelay)) as [evs e].
    cbn [fst snd] in *.
    change (EvDial (DialErr (NetError true))
              :: EvWait (next_delay tempDelay) TimerFired :: evs)
      with (retry (next_delay tempDelay) ++ evs).
    now constructor.
Qed.

Lemma loop_run_not_out_of_fuel r ds evs e :
  loop_run r ds evs e -> e <> OutOfFuel.
Proof. induction 1; congruence. Qed.

(** Every run of the handler: an error response of the mapper, or a run of
    the loop over the backoff delays, followed by the exchange when the
    loop connected. *)
Lemma ServeHTTP_cases (w : World) (r : Request) :
  (exists code text,
     header_mapper (rangeHeader w) r = inl (code, text) /\
     ServeHTTP w r = ([EvError code text], Returned)) \/
  (exists hs size evs e,
     header_mapper (rangeHeader w) r = inr (hs, size) /\
     loop_run r backoff_delays evs e /\
     ServeHTTP w r =
       match e with
       | Connected => (evs ++ serve_conn w r hs size, Returned)
       | Panicked => (evs, Aborted)
       | _ => (evs, Returned)
       end).
Proof.
  unfold ServeHTTP.
  destruct (header_mapper (rangeHeader w) r) as [[code text]|[hs size]].
  - left. eauto.
  - right.
    pose proof (dial_loop_run w r backoff_delays loop_fuel 0%nat 0
                  schedule_backoff ltac:(vm_compute; lia)) as Hrun.
    destruct (dial_loop loop_fuel w r 0 0) as [evs e]. cbn [fst snd] in Hrun.
    exists hs, size, evs, e.
    split; [reflexivity|]. split; [exact Hrun|]. now destruct e.
Qed.

Lemma Part000_ServeHTTP_cases (w : World) (r : Request) :
  (exists code text,
     Part000.header_mapper (rangeHeader w) r = inl (code, text) /\
     Part000.ServeHTTP w r = ([EvError code text], Returned)) \/
  (exists hs size evs e,
     Part000.header_mapper (rangeHeader w) r = inr (hs, size) /\
     loop_run r backoff_delays evs e /\
     Part000.ServeHTTP w r =
       match e with
       | Connected => (evs ++ serve_conn w r hs size, Returned)
       | Panicked => (evs, Aborted)
       | _ => (evs, Returned)
       end).
Proof.
  unfold Part000.ServeHTTP.
  destruct (Part000.header_mapper (rangeHeader w) r) as [[code text]|[hs size]].
  - left. eauto.
  - right.
    pose proof (dial_loop_run w r backoff_delays loop_fuel 0%nat 0
                  schedule_backoff ltac:(vm_compute; lia)) as Hrun.
    destruct (dial_loop loop_fuel w r 0 0) as [evs e]. cbn [fst snd] in Hrun.
    exists hs, size, evs, e.
    split; [reflexivity|]. split; [exact Hrun|]. now destruct e.
Qed.

Lemma Part000_header_mapper_inl choices r code text :
  Part000.header_mapper choices r = inl (code, text) ->
  (code = StatusBadRequest /\ Get (Header r) "Trailer" <> "") \/
  (code = StatusRequestHeaderFieldsTooLarge /\ Get (Header r) "Trailer" = "").
Proof.
  unfold Part000.header_mapper. intros H.
  destruct (bool_decide (Get (Header r) "Trailer" = "")) eqn:Et; cbn [negb] in H.
  - apply bool_decide_eq_true in Et. right. split; [|exact Et].
    destruct (header_loop _ _) as [[c t]|headers] eqn:El.
    + inversion H; subst. now apply header_loop_inl in El as [-> _].
    + destruct (size_loop _ 0) as [sz|]; [|now inversion H].
      destruct (maxSize <? sz); [now inversion H | discriminate].
  - apply bool_decide_eq_false in Et. left. now inversion H.
Qed.

(** A run of either version of the handler. *)
Lemma either_version_cases (w : World) (r : Request)
    (run : list event * outcome) :
  run = ServeHTTP w r \/ run = Part000.ServeHTTP w r ->
  (exists code text,
     (code = StatusBadRequest \/ code = StatusRequestHeaderFieldsTooLarge) /\
     run = ([EvError code text], Returned)) \/
  (exists hs size evs e,
     size = totalSize hs /\ size <= maxSize /\
     loop_run r backoff_delays evs e /\
     run =
       match e with
       | Connected => (evs ++ serve_conn w r hs size, Returned)
       | Panicked => (evs, Aborted)
       | _ => (evs, Returned)
       end).
Proof.
  intros [-> | ->].
  - destruct (ServeHTTP_cases w r)
      as [(code & text & Hm & Hrun)|(hs & size & evs & e & Hm & Hl & Hrun)].
    + left. exists code, text. split; [|exact Hrun].
      apply header_mapper_inl in Hm. tauto.
    + right. exists hs, size, evs, e.
      apply header_mapper_inr in Hm as (_ & _ & Hsz & Hle). auto.
  - destruct (Part000_ServeHTTP_cases w r)
      as [(code & text & Hm & Hrun)|(hs & size & evs & e & Hm & Hl & Hrun)].
    + left. exists code, text. split; [|exact Hrun].
      apply Part000_header_mapper_inl in Hm. tauto.
    + right. exists hs, size, evs, e.
      apply Part000_header_mapper_inr in Hm as (_ & Hsz & Hle). auto.
Qed.

(** ** Observations on the parts of a run *)

Lemma waits_app evs1 evs2 : waits (evs1 ++ evs2) = waits evs1 ++ waits evs2.
Proof. apply flat_map_app. Qed.

Lemma dials_app evs1 evs2 : dials (evs1 ++ evs2) = dials evs1 ++ dials evs2.
Proof. apply flat_map_app. Qed.

Lemma responses_app evs1 evs2 :
  responses (evs1 ++ evs2) = responses evs1 ++ responses evs2.
Proof. apply flat_map_app. Qed.

Lemma logs_app evs1 evs2 : logs (evs1 ++ evs2) = logs evs1 ++ logs evs2.
Proof. apply flat_map_app. Qed.

Lemma conn_bytes_app evs1 evs2 :
  conn_bytes (evs1 ++ evs2) = conn_bytes evs1 ++ conn_bytes evs2.
Proof. apply flat_map_app. Qed.

Lemma closes_app evs1 evs2 :
  closes (evs1 ++ evs2) = (closes evs1 + closes evs2)%nat.
Proof. unfold closes. now rewrite flat_map_app, length_app. Qed.

(** The exchange neither dials nor waits. *)
Lemma serve_conn_no_dial w r hs size :
  waits (serve_conn w r hs size) = [] /\ dials (serve_conn w r hs size) = [].
Proof.
  unfold serve_conn, logf.
  destruct (packetCopy w), (bodyCopy w), (readResponse w), (ErrorLog r);
    split; reflexivity.
Qed.

(** The waits of a run of the loop are the first of the delays ahead, and
    there is one call of dial for each wait and at most one more. *)
Lemma loop_run_waits r ds evs e :
  loop_run r ds evs e ->
  (exists rest, ds = waits evs ++ rest) /\
  (length (waits evs) <= dial_count evs <= S (length (waits evs)))%nat.
Proof.
  unfold dial_count.
  induction 1 as [ds|ds|ds err Herr| |d ds|d ds evs e Hrun [[rest IH] IHn]].
  - split; [now exists ds | cbn; lia].
  - split; [now exists ds | cbn; lia].
  - rewrite app_comm_cons, waits_app, dials_app. unfold logf.
    destruct (ErrorLog r); split; try (now exists ds); cbn; lia.
  - rewrite app_comm_cons, waits_app, dials_app. unfold logf.
    destruct (ErrorLog r); split; try (now exists []); cbn; lia.
  - split; [now exists ds | cbn; lia].
  - rewrite waits_app, dials_app. cbn [retry waits dials flat_map app length].
    split; [exists rest; now rewrite IH at 1 | lia].
Qed.

Lemma sum_nonneg (l : list Z) :
  Forall (fun d => 0 <= d) l -> 0 <= fold_right Z.add 0 l.
Proof. induction 1; cbn [fold_right]; lia. Qed.

Lemma sum_app (l1 l2 : list Z) :
  fold_right Z.add 0 (l1 ++ l2) = fold_right Z.add 0 l1 + fold_right Z.add 0 l2.
Proof. induction l1 as [|x l1 IH]; cbn [app fold_right]; lia. Qed.

(** X1. In every run of the handler, in either version, the waits are the
    first of the delays 5ms, 10ms, ..., 640ms, in that order; so there are at
    most eight of them, they add up to 1275ms at most, and the dial function
    is called at most nine times: once for each wait and at most once
    more. *)
Theorem retry_bound (w : World) (r : Request) (run : list event * outcome) :
  run = ServeHTTP w r \/ run = Part000.ServeHTTP w r ->
  (exists rest, backoff_delays = waits (fst run) ++ rest) /\
  (length (waits (fst run)) <= 8)%nat /\
  fold_right Z.add 0 (waits (fst run)) <= 1275 * Millisecond /\
  (length (waits (fst run)) <= dial_count (fst run)
     <= S (length (waits (fst run))))%nat /\
  (dial_count (fst run) <= 9)%nat.
Proof.
  intros Hv.
  assert (H : (exists rest, backoff_delays = waits (fst run) ++ rest) /\
              (length (waits (fst run)) <= dial_count (fst run)
                 <= S (length (waits (fst run))))%nat).
  { destruct (either_version_cases w r run Hv)
      as [(code & text & _ & ->)|(hs & size & evs & e & _ & _ & Hl & ->)].
    - split; [now exists backoff_delays | cbn; lia].
    - apply loop_run_waits in Hl.
      destruct (serve_conn_no_dial w r hs size) as [Hw Hd].
      destruct e; cbn [fst]; try exact Hl.
      unfold dial_count in *. now rewrite waits_app, dials_app, Hw, Hd, !app_nil_r. }
  destruct H as [[rest Hrest] Hn].
  assert (Hlen : (length (waits (fst run)) <= 8)%nat).
  { apply (f_equal (@length Z)) in Hrest. rewrite length_app in Hrest.
    change (length backoff_delays) with 8%nat in Hrest. lia. }
  split; [now exists rest|]. split; [exact Hlen|]. split; [|split; [exact Hn|lia]].
  assert (Hpos : Forall (fun d => 0 <= d) backoff_delays)
    by (repeat constructor; vm_compute; discriminate).
  rewrite Hrest in Hpos. apply Forall_app in Hpos as [_ Hpos].
  apply sum_nonneg in Hpos.
  assert (Hsum : fold_right Z.add 0 backoff_delays = 1275 * Millisecond)
    by reflexivity.
  rewrite Hrest, sum_app in Hsum. lia.
Qed.

Lemma retry_bound_witness :
  (length (waits (fst (ServeHTTP (exchange_world 3 true true (Some reply))
                         post_request))) <= 8)%nat /\
  (dial_count (fst (Part000.ServeHTTP
                      (const_world (DialErr (NetError true)) TimerFired)
                      plain_request)) <= 9)%nat.
Proof.
  split.
  - exact (proj1 (proj2 (retry_bound _ _ _ (or_introl eq_refl)))).
  - exact (proj2 (proj2 (proj2 (proj2 (retry_bound _ _ _ (or_intror eq_refl)))))).
Defined.

Lemma In_dials (res : DialResult) (evs : list event) :
  In (EvDial res) evs <-> In res (dials evs).
Proof.
  unfold dials. rewrite in_flat_map. split.
  - intros H. exists (EvDial res). split; [exact H | now left].
  - intros (e & He & Hin). destruct e; cbn in Hin;
      try tauto. destruct Hin as [->|[]]. exact He.
Qed.

Lemma dials_retries (ds : list Z) :
  dials (flat_map retry ds) = repeat (DialErr (NetError true)) (length ds).
Proof. induction ds as [|d ds IH]; cbn; [reflexivity | now f_equal]. Qed.

Lemma dials_logf r t : dials (logf r t) = [].
Proof. unfold logf. now destruct (ErrorLog r). Qed.

Lemma dials_failed r res t code text :
  dials (EvDial res :: logf r t ++ [EvError code text]) = [res].
Proof. unfold logf. now destruct (ErrorLog r). Qed.

(** The runs of the loop, written out: some retries, then the call of dial
    that ends the loop and what follows it. *)
Lemma loop_run_shape r ds evs e :
  loop_run r ds evs e ->
  exists done rest,
    ds = done ++ rest /\
    match e with
    | Connected => evs = flat_map retry done ++ [EvDial DialOk]
    | Panicked =>
        evs = flat_map retry done ++ [EvDial (DialErr Canceled)] \/
        exists d rest', rest = d :: rest' /\
          evs = flat_map retry done
                ++ [EvDial (DialErr (NetError true)); EvWait d ContextDone]
    | Failed =>
        (exists err, (err = NetError false \/ err = OtherError) /\
           evs = flat_map retry done
                 ++ EvDial (DialErr err) :: logf r (LogConnect err)
                 ++ [EvError StatusServiceUnavailable
                       (StatusText StatusServiceUnavailable)]) \/
        (rest = [] /\
         evs = flat_map retry done
               ++ EvDial (DialErr (NetError true))
               :: logf r (LogConnect (NetError true))
               ++ [EvError StatusGatewayTimeout
                     (StatusText StatusGatewayTimeout)])
    | OutOfFuel => False
    end.
Proof.
  induction 1 as [ds|ds|ds err Herr| |d ds
                 |d ds evs e Hrun (done & rest & -> & IH)].
  - now exists [], ds.
  - exists [], ds. split; [reflexivity | now left].
  - exists [], ds. split; [reflexivity|]. left. now exists err.
  - exists [], []. split; [reflexivity|]. now right.
  - exists [], (d :: ds). split; [reflexivity|]. right. now exists d, ds.
  - exists (d :: done), rest. split; [reflexivity|].
    cbn [flat_map]. rewrite <- !app_assoc.
    destruct e.
    + now rewrite IH.
    + destruct IH as [(err & Herr & ->)|[-> ->]].
      * left. now exists err.
      * now right.
    + destruct IH as [->|(d' & rest' & -> & ->)].
      * now left.
      * right. now exists d', rest'.
    + exact IH.
Qed.

Lemma In_repeat_eq {A} (x y : A) n : In x (repeat y n) -> x = y.
Proof. induction n; cbn; [tauto | intros [<-|H]; auto]. Qed.

(** X2. In either version, when a call of dial returns an error that is
    neither [context.Canceled] nor a temporary [net.Error], the run
    consists of the retries made before it, that call, the log line and the
    response 503: the handler does not wait, does not call dial again and
    returns. *)
Theorem unavailable_no_retry (w : World) (r : Request)
    (run : list event * outcome) (err : error) :
  run = ServeHTTP w r \/ run = Part000.ServeHTTP w r ->
  In (EvDial (DialErr err)) (fst run) ->
  err = NetError false \/ err = OtherError ->
  exists done rest,
    backoff_delays = done ++ rest /\
    run = (flat_map retry done
             ++ EvDial (DialErr err) :: logf r (LogConnect err)
             ++ [EvError StatusServiceUnavailable
                   (StatusText StatusServiceUnavailable)],
           Returned).
Proof.
  intros Hv Hin Herr.
  destruct (either_version_cases w r run Hv)
    as [(code & text & _ & ->)|(hs & size & evs & e & _ & _ & Hl & ->)].
  { cbn in Hin. destruct Hin as [Hin|[]]. discriminate. }
  apply loop_run_shape in Hl as (done & rest & Hds & Hshape).
  exists done, rest. split; [exact Hds|].
  assert (Hno : forall evs',
             In (DialErr err)
                (dials (flat_map retry done) ++ evs') -> In (DialErr err) evs').
  { intros evs' [H|H]%in_app_or; [|exact H].
    rewrite dials_retries in H. apply In_repeat_eq in H.
    destruct Herr; congruence. }
  destruct e; cbn [fst] in Hin; apply In_dials in Hin.
  - subst evs. rewrite !dials_app in Hin. rewrite <- app_assoc in Hin.
    apply Hno in Hin. rewrite (proj2 (serve_conn_no_dial _ _ _ _)) in Hin.
    cbn in Hin. destruct Hin as [Hin|[]]. discriminate.
  - destruct Hshape as [(err' & Herr' & ->)|[_ ->]].
    + rewrite dials_app in Hin. apply Hno in Hin.
      rewrite dials_failed in Hin.
      destruct Hin as [[= ->]|[]]. reflexivity.
    + rewrite dials_app in Hin. apply Hno in Hin.
      rewrite dials_failed in Hin.
      destruct Hin as [[= <-]|[]]. destruct Herr; discriminate.
  - destruct Hshape as [->|(d & rest' & _ & ->)];
      rewrite dials_app in Hin; apply Hno in Hin; cbn in Hin;
      destruct Hin as [[= <-]|[]]; destruct Herr; discriminate.
  - destruct Hshape.
Qed.

Lemma unavailable_no_retry_witness :
  exists done rest,
    backoff_delays = done ++ rest /\
    ServeHTTP (retry_world 2 (DialErr OtherError) 9) plain_request =
      (flat_map retry done
         ++ EvDial (DialErr OtherError) :: logf plain_request (LogConnect OtherError)
         ++ [EvError StatusServiceUnavailable
               (StatusText StatusServiceUnavailable)],
       Returned).
Proof.
  apply (unavailable_no_retry (retry_world 2 (DialErr OtherError) 9)).
  - now left.
  - vm_compute. do 4 right. left. reflexivity.
  - now right.
Defined.

(** The six forms of a run of the handler, in either version. *)
Lemma run_forms (w : World) (r : Request) (run : list event * outcome) :
  run = ServeHTTP w r \/ run = Part000.ServeHTTP w r ->
  (exists code text,
     (code = StatusBadRequest \/ code = StatusRequestHeaderFieldsTooLarge) /\
     run = ([EvError code text], Returned)) \/
  exists done rest, backoff_delays = done ++ rest /\
    ((exists hs size,
        size = totalSize hs /\ size <= maxSize /\
        run = (flat_map retry done ++ [EvDial DialOk]
                 ++ serve_conn w r hs size, Returned)) \/
     run = (flat_map retry done ++ [EvDial (DialErr Canceled)], Aborted) \/
     (exists d rest', rest = d :: rest' /\
        run = (flat_map retry done
                 ++ [EvDial (DialErr (NetError true)); EvWait d ContextDone],
               Aborted)) \/
     (exists err, (err = NetError false \/ err = OtherError) /\
        run = (flat_map retry done
                 ++ EvDial (DialErr err) :: logf r (LogConnect err)
                 ++ [EvError StatusServiceUnavailable
                       (StatusText StatusServiceUnavailable)], Returned)) \/
     (rest = [] /\
      run = (flat_map retry done
               ++ EvDial (DialErr (NetError true))
               :: logf r (LogConnect (NetError true))
               ++ [EvError StatusGatewayTimeout
                     (StatusText StatusGatewayTimeout)], Returned))).
Proof.
  intros Hv.
  destruct (either_version_cases w r run Hv)
    as [H|(hs & size & evs & e & Hsz & Hle & Hl & ->)]; [now left|].
  right. apply loop_run_shape in Hl as (done & rest & Hds & Hshape).
  exists done, rest. split; [exact Hds|].
  destruct e.
  - left. exists hs, size. subst evs. now rewrite <- app_assoc.
  - destruct Hshape as [(err & Herr & ->)|[-> ->]].
    + do 3 right. left. now exists err.
    + do 4 right. auto.
  - destruct Hshape as [->|(d & rest' & -> & ->)].
    + right. now left.
    + do 2 right. left. now exists d, rest'.
  - destruct Hshape.
Qed.






Lemma waits_retries ds : waits (flat_map retry ds) = ds.
Proof. induction ds as [|d ds IH]; cbn; [reflexivity | now f_equal]. Qed.

Lemma responses_retries ds : responses (flat_map retry ds) = [].
Proof. induction ds as [|d ds IH]; cbn; [reflexivity | exact IH]. Qed.

Lemma error_codes_retries ds : error_codes (flat_map retry ds) = [].
Proof. induction ds as [|d ds IH]; cbn; [reflexivity | exact IH]. Qed.

Lemma logs_retries ds : logs (flat_map retry ds) = [].
Proof. induction ds as [|d ds IH]; cbn; [reflexivity | exact IH]. Qed.

Lemma closes_retries ds : closes (flat_map retry ds) = 0%nat.
Proof. induction ds as [|d ds IH]; cbn; [reflexivity | exact IH]. Qed.

Lemma conn_bytes_retries ds : conn_bytes (flat_map retry ds) = [].
Proof. induction ds as [|d ds IH]; cbn; [reflexivity | exact IH]. Qed.

Lemma Forall_retries (P : event -> Prop) ds :
  P (EvDial (DialErr (NetError true))) ->
  (forall d, P (EvWait d TimerFired)) ->
  Forall P (flat_map retry ds).
Proof.
  intros Hd Hw. induction ds as [|d ds IH]; cbn; [constructor|].
  constructor; [exact Hd|]. constructor; [apply Hw | exact IH].
Qed.


Lemma last_app_singleton {A} (l : list A) (x : A) : last (l ++ [x]) = Some x.
Proof. apply last_snoc. Qed.

(** The exchange: its last event closes the connection, once, and it
    writes one status to the response. *)
Lemma serve_conn_ends w r hs size :
  last (serve_conn w r hs size) = Some EvConnClose /\
  closes (serve_conn w r hs size) = 1%nat /\
  length (responses (serve_conn w r hs size)) = 1%nat /\
  before_use (serve_conn w r hs size) = [].
Proof.
  unfold serve_conn, logf.
  destruct (packetCopy w), (bodyCopy w), (readResponse w), (ErrorLog r);
    repeat split; reflexivity.
Qed.

(** X4. In either version, when a call of dial returned a connection and
    the copy of the packet, the copy of the body or the reading of the reply
    fails, the handler logs the failure (when there is a logger), answers
    502, closes the connection and returns; it writes no other status, and
    it does not go on to the later steps: no body is sent after a failed
    packet, no reply is read after a failed body. *)
Theorem bad_gateway (w : World) (r : Request) (run : list event * outcome) :
  run = ServeHTTP w r \/ run = Part000.ServeHTTP w r ->
  In (EvDial DialOk) (fst run) ->
  packetCopy w = false \/ bodyCopy w = false \/ readResponse w = None ->
  snd run = Returned /\
  responses (fst run) = [StatusBadGateway] /\
  logs (fst run) =
    (if ErrorLog r
     then [if negb (packetCopy w) then LogPacketWrite
           else if negb (bodyCopy w) then LogBodyWrite
           else LogResponseRead]
     else []) /\
  last (fst run) = Some EvConnClose /\
  closes (fst run) = 1%nat /\
  (packetCopy w = false ->
   Forall (fun e => match e with
                    | EvConnWriteBody _ _ | EvReadResponse _ => False
                    | _ => True
                    end) (fst run)) /\
  (bodyCopy w = false ->
   Forall (fun e => match e with EvReadResponse _ => False | _ => True end)
     (fst run)).
Proof.
  intros Hv Hin Hfail.
  destruct (run_forms w r run Hv)
    as [(c & t & _ & ->)
       |(done & rest & Hds &
         [(hs & size & _ & _ & ->)
         |[->|[(d & rest' & _ & ->)|[(err & Herr & ->)|[_ ->]]]]])];
    cbn [fst snd] in *.
  - destruct Hin as [Hin|[]]. discriminate.
  - clear Hin.
    assert (Hpre : forall P : event -> Prop,
               P (EvDial (DialErr (NetError true))) ->
               (forall d, P (EvWait d TimerFired)) -> P (EvDial DialOk) ->
               Forall P (serve_conn w r hs size) ->
               Forall P (flat_map retry done ++ [EvDial DialOk]
                           ++ serve_conn w r hs size)).
    { intros P H1 H2 H3 H4. apply Forall_app_2; [now apply Forall_retries|].
      apply Forall_app_2; [now repeat constructor | exact H4]. }
    rewrite !responses_app, !logs_app, !closes_app, responses_retries,
      logs_retries, closes_retries, !app_assoc, last_app.
    split; [reflexivity|].
    unfold serve_conn, logf in *.
    destruct (packetCopy w) eqn:Hp, (bodyCopy w) eqn:Hb,
      (readResponse w) as [resp|] eqn:Hr;
      try (destruct Hfail as [|[|]]; discriminate);
      cbn [negb] in *; destruct (ErrorLog r);
      (split; [reflexivity|]); (split; [reflexivity|]);
      (split; [reflexivity|]); (split; [reflexivity|]);
      (split; intros Hf; try discriminate Hf;
       rewrite <- !app_assoc; apply Hpre; try exact I; try (intros; exact I);
       repeat constructor).
  - exfalso. apply In_dials in Hin. rewrite dials_app, dials_retries in Hin.
    apply in_app_or in Hin as [Hin%In_repeat_eq|[Hin|[]]]; discriminate.
  - exfalso. apply In_dials in Hin. rewrite dials_app, dials_retries in Hin.
    apply in_app_or in Hin as [Hin%In_repeat_eq|[Hin|[]]]; discriminate.
  - exfalso. apply In_dials in Hin.
    rewrite dials_app, dials_retries, dials_failed in Hin.
    apply in_app_or in Hin as [Hin%In_repeat_eq|[Hin|[]]];
      destruct Herr; subst; discriminate.
  - exfalso. apply In_dials in Hin.
    rewrite dials_app, dials_retries, dials_failed in Hin.
    apply in_app_or in Hin as [Hin%In_repeat_eq|[Hin|[]]]; discriminate.
Qed.

Lemma bad_gateway_witness :
  responses (fst (ServeHTTP (exchange_world 1 false true (Some reply))
                    post_request)) = [StatusBadGateway] /\
  responses (fst (Part000.ServeHTTP (exchange_world 0 true true None)
                    post_request)) = [StatusBadGateway].
Proof.
  split.
  - refine (proj1 (proj2 (bad_gateway (exchange_world 1 false true (Some reply))
                            post_request _ (or_introl eq_refl) _ _))).
    + vm_compute. do 2 right. left. reflexivity.
    + now left.
  - refine (proj1 (proj2 (bad_gateway (exchange_world 0 true true None)
                            post_request _ (or_intror eq_refl) _ _))).
    + vm_compute. left. reflexivity.
    + now do 2 right.
Defined.

Ltac observe :=
  rewrite ?responses_app, ?logs_app, ?closes_app, ?conn_bytes_app,
    ?waits_app, ?dials_app, ?flat_map_app,
    ?responses_retries, ?logs_retries, ?closes_retries, ?conn_bytes_retries,
    ?waits_retries, ?dials_retries, ?error_codes_retries.

Ltac run_cases Hv :=
  let c := fresh "code" in let t := fresh "text" in
  let done := fresh "done" in let rest := fresh "rest" in
  let Hds := fresh "Hds" in let hs := fresh "hs" in
  let size := fresh "size" in let d := fresh "d" in
  let rest' := fresh "rest'" in let err := fresh "err" in
  let Herr := fresh "Herr" in let Hcode := fresh "Hcode" in
  let Hsz := fresh "Hsz" in let Hle := fresh "Hle" in
  let Hrest := fresh "Hrest" in
  destruct (run_forms _ _ _ Hv)
    as [(c & t & Hcode & ->)
       |(done & rest & Hds &
         [(hs & size & Hsz & Hle & ->)
         |[->|[(d & rest' & Hrest & ->)|[(err & Herr & ->)|[Hrest ->]]]]])];
  cbn [fst snd] in *.

(** X5. In either version, a run that returns has written exactly one
    status to the response (an error response or the backend's status), and
    a run that panics has written none. *)
Theorem one_response (w : World) (r : Request) (run : list event * outcome) :
  run = ServeHTTP w r \/ run = Part000.ServeHTTP w r ->
  match snd run with
  | Returned => length (responses (fst run)) = 1%nat
  | Aborted => responses (fst run) = []
  end.
Proof.
  intros Hv. run_cases Hv; observe.
  - reflexivity.
  - change (responses [EvDial DialOk]) with (@nil Z). cbn [app].
    apply serve_conn_ends.
  - reflexivity.
  - reflexivity.
  - unfold logf. destruct (ErrorLog r); reflexivity.
  - unfold logf. destruct (ErrorLog r); reflexivity.
Qed.

Lemma one_response_witness :
  length (responses (fst (ServeHTTP (exchange_world 2 true true (Some reply))
                            post_request))) = 1%nat /\
  responses (fst (Part000.ServeHTTP (retry_world 3 DialOk 1) plain_request)) = [].
Proof.
  split.
  - exact (one_response (exchange_world 2 true true (Some reply)) post_request
             _ (or_introl eq_refl)).
  - exact (one_response (retry_world 3 DialOk 1) plain_request
             _ (or_intror eq_refl)).
Defined.



Lemma In_retries (e : event) (ds : list Z) :
  In e (flat_map retry ds) ->
  e = EvDial (DialErr (NetError true)) \/ exists d, e = EvWait d TimerFired.
Proof.
  intros (d & _ & [<-|[<-|[]]])%in_flat_map; [now left | right; now exists d].
Qed.

Lemma In_error_failed r res t code0 text0 code text :
  In (EvError code text) (EvDial res :: logf r t ++ [EvError code0 text0]) ->
  code = code0 /\ text = text0.
Proof.
  unfold logf. destruct (ErrorLog r); cbn; intuition congruence.
Qed.

Lemma In_error_serve_conn w r hs size code text :
  In (EvError code text) (serve_conn w r hs size) ->
  code = StatusBadGateway /\ text = StatusText StatusBadGateway.
Proof.
  unfold serve_conn, logf.
  destruct (packetCopy w), (bodyCopy w), (readResponse w), (ErrorLog r);
    cbn; intuition congruence.
Qed.

(** X7. In either version, the error responses of the handler are these: a
    400 or a 431, written before the dial function is called, as the only
    event of the run; a 502, after a call of dial returned a connection; a
    503 or a 504, after at least one call of dial and with no connection
    ever returned; a 504 comes only after nine calls and all eight waits.
    The text of a 5xx response is the standard text of its status. *)
Theorem error_statuses (w : World) (r : Request) (run : list event * outcome)
    (code : Z) (text : errtext) :
  run = ServeHTTP w r \/ run = Part000.ServeHTTP w r ->
  In (EvError code text) (fst run) ->
  ((code = 400 \/ code = 431) /\ fst run = [EvError code text]) \/
  (code = 502 /\ text = StatusText 502 /\ In DialOk (dials (fst run))) \/
  (code = 503 /\ text = StatusText 503 /\
   ~ In DialOk (dials (fst run)) /\ (1 <= dial_count (fst run))%nat) \/
  (code = 504 /\ text = StatusText 504 /\
   ~ In DialOk (dials (fst run)) /\ dial_count (fst run) = 9%nat /\
   waits (fst run) = backoff_delays).
Proof.
  intros Hv Hin.
  assert (Hnot : forall k x, x <> DialOk ->
             ~ In DialOk (repeat (DialErr (NetError true)) k ++ [x])).
  { intros k x Hx [H%In_repeat_eq|[H|[]]]%in_app_or; congruence. }
  assert (Hpre : forall ds evs,
             In (EvError code text) (flat_map retry ds ++ evs) ->
             In (EvError code text) evs).
  { intros ds evs [[H|[d H]]%In_retries|H]%in_app_or;
      [discriminate | discriminate | exact H]. }
  run_cases Hv.
  - left. destruct Hin as [[= <- <-]|[]].
    split; [|reflexivity].
    unfold StatusBadRequest, StatusRequestHeaderFieldsTooLarge in *. tauto.
  - right. left. apply Hpre in Hin.
    destruct Hin as [Hin|Hin]; [discriminate|].
    apply In_error_serve_conn in Hin as [-> ->].
    split; [reflexivity|]. split; [reflexivity|].
    observe. apply in_or_app. right. now left.
  - apply Hpre in Hin. destruct Hin as [Hin|[]]. discriminate.
  - apply Hpre in Hin. destruct Hin as [Hin|[Hin|[]]]; discriminate.
  - do 2 right. left. apply Hpre, In_error_failed in Hin as [-> ->].
    split; [reflexivity|]. split; [reflexivity|].
    unfold dial_count. observe. rewrite dials_failed. split.
    + now apply Hnot.
    + rewrite length_app. cbn. lia.
  - do 3 right. apply Hpre, In_error_failed in Hin as [-> ->].
    split; [reflexivity|]. split; [reflexivity|].
    subst rest. rewrite app_nil_r in Hds. subst done.
    unfold dial_count. observe. rewrite dials_failed. split; [|split].
    + now apply Hnot.
    + reflexivity.
    + unfold waits, logf. destruct (ErrorLog r); cbn [flat_map app];
        now rewrite app_nil_r.
Qed.

Lemma error_statuses_witness :
  dial_count (fst (ServeHTTP (const_world (DialErr (NetError true)) TimerFired)
                     plain_request)) = 9%nat.
Proof.
  destruct (error_statuses (const_world (DialErr (NetError true)) TimerFired)
              plain_request _ 504 (StatusText 504) (or_introl eq_refl))
    as [[[H|H] _]|[[H _]|[[H _]|(_ & _ & _ & H & _)]]];
    [|discriminate H|discriminate H|discriminate H|discriminate H|exact H].
  vm_compute. do 18 right. left. reflexivity.
Defined.

Lemma error_codes_app evs1 evs2 :
  error_codes (evs1 ++ evs2) = error_codes evs1 ++ error_codes evs2.
Proof. apply flat_map_app. Qed.

(** X8. In either version, a request is logged only when the server has an
    error log, and then there is one log line for each 5xx error response
    of the run: failures of the backend are logged, and the 4xx responses
    to the client and the runs that succeed or panic are not. *)
Theorem failures_logged (w : World) (r : Request)
    (run : list event * outcome) :
  run = ServeHTTP w r \/ run = Part000.ServeHTTP w r ->
  length (logs (fst run)) =
    (if ErrorLog r
     then length (filter (fun c => 500 <= c) (error_codes (fst run)))
     else 0%nat).
Proof.
  intros Hv. run_cases Hv;
    rewrite ?error_codes_app, ?logs_app, ?logs_retries, ?error_codes_retries.
  - destruct (ErrorLog r); [|reflexivity].
    destruct Hcode as [-> | ->]; reflexivity.
  - unfold serve_conn, logf.
    destruct (packetCopy w), (bodyCopy w), (readResponse w), (ErrorLog r);
      reflexivity.
  - now destruct (ErrorLog r).
  - now destruct (ErrorLog r).
  - unfold logf. destruct (ErrorLog r); reflexivity.
  - unfold logf. destruct (ErrorLog r); reflexivity.
Qed.

Lemma failures_logged_witness :
  length (logs (fst (ServeHTTP (exchange_world 0 true false None)
                       post_request))) = 1%nat /\
  length (logs (fst (Part000.ServeHTTP (exchange_world 0 true true None)
                       trailer_request))) = 0%nat.
Proof.
  split.
  - exact (failures_logged (exchange_world 0 true false None) post_request
             _ (or_introl eq_refl)).
  - exact (failures_logged (exchange_world 0 true true None) trailer_request
             _ (or_intror eq_refl)).
Defined.

(** ** More on the header mapper *)

(** X9. The mapper accepts a request exactly when it declares no trailer
    and the total encoded size of its HeaderSet is at most 65535: the
    checks of the single names and values reject nothing that the check of
    the total would accept, and the order in which the header map is
    iterated plays no part.  What it returns then is the positional pairs,
    the transformed inbound headers in the order of the iteration, and that
    total. *)
Theorem mapper_accepts (choices : list nat) (r : Request) :
  ((exists hs size, header_mapper choices r = inr (hs, size)) <->
   Get (Header r) "Trailer" = "" /\ totalSize (all_headers [] r) <= maxSize) /\
  (forall hs size,
     header_mapper choices r = inr (hs, size) ->
     hs = positional_headers r ++ map http_header (range_map choices (Header r))
     /\ size = totalSize (all_headers [] r)).
Proof.
  pose proof (totalSize_Permutation _ _ (all_headers_Permutation choices [] r))
    as Hsz.
  split; [split|].
  - intros (hs & size & (Ht & -> & -> & Hle)%header_mapper_inr).
    split; [exact Ht | lia].
  - intros [Ht Hle]. rewrite <- Hsz in Hle.
    eexists _, _. apply header_mapper_ok; assumption.
  - intros hs size (_ & -> & -> & _)%header_mapper_inr.
    split; [reflexivity | exact Hsz].
Qed.

(** X10. The error response of the mapper tells what was wrong: 400 with
    the trailers text exactly for a request that declares a trailer; 431
    naming a header only if the pair made from that inbound header is too
    large; and 431 with the standard text only if no pair made from an
    inbound header is too large (a positional field is, or the total). *)
Theorem mapper_error_text (choices : list nat) (r : Request) (code : Z)
    (text : errtext) :
  header_mapper choices r = inl (code, text) ->
  match text with
  | TrailersNotSupported =>
      code = 400 /\ Get (Header r) "Trailer" <> ""
  | HeaderTooLarge k =>
      code = 431 /\ Get (Header r) "Trailer" = "" /\
      exists v, Header r !! k = Some v /\ too_large (http_header (k, v)) = true
  | StatusText c =>
      code = 431 /\ c = 431 /\ Get (Header r) "Trailer" = "" /\
      (forall k v, Header r !! k = Some v ->
                   too_large (http_header (k, v)) = false) /\
      maxSize < totalSize (all_headers choices r)
  end.
Proof.
  unfold header_mapper. intros H.
  destruct (bool_decide (Get (Header r) "Trailer" = "")) eqn:Et; cbn [negb] in H.
  2:{ apply bool_decide_eq_false in Et. inversion H; subst. now split. }
  apply bool_decide_eq_true in Et.
  destruct (header_loop _ _) as [[c t]|headers] eqn:El.
  - inversion H; subst.
    apply header_loop_inl in El as [-> ([k v] & Hin & Hl & ->)].
    split; [reflexivity|]. split; [exact Et|]. exists v.
    apply elem_of_range_map in Hin. now split.
  - apply header_loop_inr in El as [-> HF].
    assert (Hall : forall k v, Header r !! k = Some v ->
                               too_large (http_header (k, v)) = false).
    { intros k v Hkv. apply (elem_of_range_map choices) in Hkv.
      exact (proj1 (List.Forall_forall _ _) HF (k, v) Hkv). }
    assert (Hbig : maxSize < totalSize (all_headers choices r)).
    { destruct (Z.lt_ge_cases maxSize (totalSize (all_headers choices r)))
        as [Hlt|Hge]; [exact Hlt|].
      fold (all_headers choices r) in H.
      rewrite size_loop_ok in H by (apply fits_not_too_large; lia).
      rewrite Z.add_0_l in H. apply Z.ltb_ge in Hge. rewrite Hge in H.
      discriminate. }
    destruct (size_loop _ 0) as [sz|]; [destruct (maxSize <? sz)|];
      inversion H; subst; auto.
Qed.

Lemma mapper_error_text_witness :
  exists v, Header huge_request !! "Cookie" = Some v /\
            too_large (http_header ("Cookie", v)) = true.
Proof.
  refine (proj2 (proj2 (mapper_error_text [] huge_request 431
                          (HeaderTooLarge "Cookie") _))).
  vm_compute. reflexivity.
Defined.

Lemma length_range_map {V} (choices : list nat) (m : gmap string V) :
  length (range_map choices m) = size m.
Proof.
  unfold range_map. rewrite (Permutation_length (shuffle_Permutation _ _)).
  apply length_map_to_list.
Qed.

(** X11. The HeaderSet the mapper returns has one pair for every entry of
    the request's header map, none dropped and none merged: the headers the
    positional fields were read from (Content-Type, X-Forwarded-For,
    X-Forwarded-Proto) are sent once more as HTTP_ headers, and two inbound
    names with the same transformed name give two pairs.  Before them come
    the positional pairs, between 8 and 12 of them. *)
Theorem inbound_headers_kept (choices : list nat) (r : Request)
    (hs : list hdr) (total : Z) :
  header_mapper choices r = inr (hs, total) ->
  (forall k v, Header r !! k = Some v -> In (http_header (k, v)) hs) /\
  length hs = (length (positional_headers r) + size (Header r))%nat /\
  drop (length (positional_headers r)) hs
    = map http_header (range_map choices (Header r)) /\
  (8 <= length (positional_headers r) <= 12)%nat.
Proof.
  intros (_ & -> & _)%header_mapper_inr. unfold all_headers.
  split; [|split; [|split]].
  - intros k v Hkv. apply in_or_app. right. apply in_map.
    now apply elem_of_range_map.
  - now rewrite length_app, length_map, length_range_map.
  - now rewrite drop_app_length.
  - unfold positional_headers, port_headers, remote_headers.
    rewrite !length_app.
    destruct (is_https r), (LocalAddr r) as [addr|],
      (negb _), (Go_net.SplitHostPort (RemoteAddr r)) as [[h p]|];
      try destruct (Go_net.SplitHostPort addr) as [[h' p']|];
      cbn; lia.
Qed.

Lemma inbound_headers_kept_witness :
  In (mkhdr "HTTP_CONTENT_TYPE" "text/plain") (all_headers [] post_request) /\
  In (mkhdr "CONTENT_TYPE" "text/plain") (all_headers [] post_request).
Proof.
  split.
  - refine (proj1 (inbound_headers_kept [] post_request _ _ _)
              "Content-Type" ["text/plain"] _).
    + vm_compute. reflexivity.
    + vm_compute. reflexivity.
  - vm_compute. do 2 right. left. reflexivity.
Defined.

(** What the mapping of lines 98-103 does to one byte: the result is
    neither a dash nor a lower-case letter. *)
Lemma mapped_byte (a : ascii) :
  let b := if Ascii.eqb a "-" then "_"%char else Go_unicode.ToUpper a in
  b <> "-"%char /\ is_lower b = false.
Proof.
  destruct a as [[] [] [] [] [] [] [] []]; vm_compute;
    (split; [discriminate | reflexivity]).
Qed.

Lemma occurs_append c s t :
  occurs c (s ++ t)%string = occurs c s || occurs c t.
Proof.
  induction s as [|a s IH]; [reflexivity|].
  change (String a s ++ t)%string with (String a (s ++ t)%string).
  cbn [occurs]. now rewrite IH, orb_assoc.
Qed.

Lemma len_append (s t : string) : len (s ++ t)%string = len s + len t.
Proof.
  unfold len. induction s as [|a s IH]; [reflexivity|].
  change (String a s ++ t)%string with (String a (s ++ t)%string).
  cbn [String.length]. rewrite !Nat2Z.inj_succ, IH. lia.
Qed.

Lemma is_ascii_append s t :
  is_ascii (s ++ t)%string = is_ascii s && is_ascii t.
Proof.
  induction s as [|a s IH]; [reflexivity|].
  change (String a s ++ t)%string with (String a (s ++ t)%string).
  cbn [is_ascii]. now rewrite IH, andb_assoc.
Qed.

Lemma occurs_mapped c k :
  c = "-"%char \/ is_lower c = true ->
  occurs c (Go_strings.Map
              (fun c => if Ascii.eqb c "-" then "_"%char
                        else Go_unicode.ToUpper c) k) = false.
Proof.
  intros Hc. induction k as [|a k IH]; [reflexivity|].
  cbn [Go_strings.Map occurs]. rewrite IH, orb_false_r.
  destruct (mapped_byte a) as [Hd Hl]. cbn zeta in Hd, Hl.
  apply Ascii.eqb_neq. intros E. rewrite E in Hd, Hl.
  destruct Hc as [->|Hc]; congruence.
Qed.

(** On an ASCII name the mapping keeps the length and stays ASCII. *)
Lemma Map_ascii (k : string) :
  is_ascii k = true ->
  let k' := Go_strings.Map
              (fun c => if Ascii.eqb c "-" then "_"%char
                        else Go_unicode.ToUpper c) k in
  String.length k' = String.length k /\ is_ascii k' = true.
Proof.
  induction k as [|a k IH]; [now split|].
  cbn [is_ascii Go_strings.Map String.length].
  intros [Ha Hk]%andb_true_iff. destruct (IH Hk) as [IHl IHa].
  cbn zeta in IHl, IHa. rewrite IHl, IHa, andb_true_r. split; [reflexivity|].
  revert Ha. clear.
  destruct a as [[] [] [] [] [] [] [] []]; vm_compute; congruence.
Qed.

(** X12. For an inbound header whose name is ASCII, as the field names of
    an HTTP request are, the name of the pair made from it (lines 98-103)
    is [HTTP_] followed by as many bytes as the header's name has: it is
    ASCII again and holds no dash and no lower-case letter.  Its value is
    the values of the header joined by a comma and a space. *)
Theorem transformed_name (k : string) (v : list string) (c : ascii) :
  is_ascii k = true ->
  c = "-"%char \/ is_lower c = true ->
  String.prefix "HTTP_" (name (http_header (k, v))) = true /\
  len (name (http_header (k, v))) = 5 + len k /\
  is_ascii (name (http_header (k, v))) = true /\
  occurs c (name (http_header (k, v))) = false /\
  value (http_header (k, v)) = Go_strings.Join v ", ".
Proof.
  intros Hk Hc. unfold http_header. cbn [name value fst snd].
  destruct (Map_ascii k Hk) as [Hlen Hascii]. cbn zeta in Hlen, Hascii.
  split; [apply prefix_append|].
  split; [rewrite len_append; unfold len; rewrite Hlen; cbn [String.length]; lia|].
  split; [rewrite is_ascii_append, Hascii; reflexivity|].
  split; [|reflexivity].
  rewrite occurs_append, occurs_mapped by exact Hc.
  rewrite orb_false_r.
  destruct Hc as [->|Hc]; [reflexivity|].
  cbn [occurs]. rewrite !orb_false_r.
  assert (Hne : forall a, is_lower a = false -> Ascii.eqb a c = false).
  { intros a Ha. apply Ascii.eqb_neq. intros ->. congruence. }
  rewrite !Hne by reflexivity. reflexivity.
Qed.

Lemma transformed_name_witness :
  name (http_header ("x-Request-id", ["a"; "b"])) = "HTTP_X_REQUEST_ID" /\
  len (name (http_header ("x-Request-id", ["a"; "b"]))) = 17 /\
  occurs "-" (name (http_header ("x-Request-id", ["a"; "b"]))) = false /\
  value (http_header ("x-Request-id", ["a"; "b"])) = "a, b".
Proof.
  split; [reflexivity|].
  destruct (transformed_name "x-Request-id" ["a"; "b"] "-" eq_refl
              (or_introl eq_refl)) as (_ & Hlen & _ & Hocc & Hval).
  split; [exact Hlen|]. split; [exact Hocc | exact Hval].
Defined.

(** ** More on the caller's address *)

Lemma prefix_nil (s : string) : String.prefix "" s = true.
Proof. now destruct s. Qed.

Lemma prefix_refl (s : string) : String.prefix s s = true.
Proof.
  induction s as [|a s IH]; [reflexivity|].
  cbn [String.prefix]. destruct (ascii_dec a a); [exact IH | congruence].
Qed.

Lemma prefix_leftmost_entry (s : string) :
  String.prefix (leftmost_entry s) s = true.
Proof.
  induction s as [|a s IH]; [reflexivity|].
  cbn [leftmost_entry]. destruct (Ascii.eqb a ","); [reflexivity|].
  cbn [String.prefix]. destruct (ascii_dec a a); [exact IH | congruence].
Qed.

Lemma occurs_leftmost_entry (s : string) :
  occurs "," (leftmost_entry s) = false.
Proof.
  induction s as [|a s IH]; [reflexivity|].
  cbn [leftmost_entry]. destruct (Ascii.eqb a ",") eqn:E; [reflexivity|].
  cbn [occurs]. now rewrite E, IH.
Qed.

Lemma values_of_port_headers n r :
  n <> "HTTPS" -> n <> "SERVER_PORT" -> values_of n (port_headers r) = [].
Proof.
  intros Ha Hp. unfold port_headers.
  apply String.eqb_neq in Ha, Hp. rewrite String.eqb_sym in Ha, Hp.
  destruct (is_https r); [|destruct (LocalAddr r) as [addr|];
    [destruct (Go_net.SplitHostPort addr) as [[host port]|]|]];
    unfold values_of; cbn [app flat_map name]; rewrite ?Ha, ?Hp; reflexivity.
Qed.

(** X13. When the request carries a forwarding header, the HeaderSet has
    exactly one REMOTE_ADDR: it is never empty, it is the beginning of the
    header's value, and it holds no comma unless the header starts with
    one. *)
Theorem forwarded_remote_addr (choices : list nat) (r : Request)
    (hs : list hdr) (total : Z) :
  header_mapper choices r = inr (hs, total) ->
  Get (Header r) "X-Forwarded-For" <> "" ->
  exists v,
    values_of "REMOTE_ADDR" hs = [v] /\
    v <> "" /\
    String.prefix v (Get (Header r) "X-Forwarded-For") = true /\
    (byte_at (Get (Header r) "X-Forwarded-For") 0 <> Some ","%char ->
     occurs "," v = false).
Proof.
  intros (_ & -> & _)%header_mapper_inr Hs.
  set (s := Get (Header r) "X-Forwarded-For") in *.
  exists (forwarded_addr s). split; [|split; [|split]].
  - rewrite values_of_all_headers by reflexivity.
    rewrite values_of_port_headers by discriminate.
    unfold remote_headers. fold s.
    rewrite bool_decide_eq_false_2 by exact Hs. cbn [negb].
    destruct (Go_net.SplitHostPort (RemoteAddr r)) as [[host port]|];
      reflexivity.
  - rewrite forwarded_addr_spec.
    destruct (bool_decide (byte_at s 0 = Some ","%char)) eqn:Ec; [exact Hs|].
    apply bool_decide_eq_false in Ec.
    destruct s as [|a s']; [congruence|]. cbn [leftmost_entry].
    destruct (Ascii.eqb_spec a ",") as [->|Hne]; [|discriminate].
    exfalso. apply Ec. reflexivity.
  - rewrite forwarded_addr_spec.
    destruct (bool_decide _); [apply prefix_refl | apply prefix_leftmost_entry].
  - intros Hc. rewrite forwarded_addr_spec.
    rewrite bool_decide_eq_false_2 by exact Hc. apply occurs_leftmost_entry.
Qed.

Lemma forwarded_remote_addr_witness :
  exists v,
    values_of "REMOTE_ADDR" (all_headers [] leading_comma_request) = [v] /\
    v <> "" /\
    String.prefix v (Get (Header leading_comma_request) "X-Forwarded-For")
      = true /\
    (byte_at (Get (Header leading_comma_request) "X-Forwarded-For") 0
       <> Some ","%char ->
     occurs "," v = false).
Proof.
  apply (forwarded_remote_addr [] leading_comma_request
           (all_headers [] leading_comma_request)
           (totalSize (all_headers [] leading_comma_request))).
  - vm_compute. reflexivity.
  - vm_compute. discriminate.
Defined.

(** ** More on the packet *)

Lemma length_write_hdr (h : hdr) :
  Z.of_nat (length (write_hdr [] h)) = len (name h) + len (value h) + 4.
Proof.
  unfold write_hdr, PutUint16, len.
  rewrite !length_app, !length_list_byte_of_string. cbn [length]. lia.
Qed.

Lemma length_packet (hs : list hdr) (size : Z) :
  Z.of_nat (length (packet hs size)) = 4 + totalSize hs.
Proof.
  unfold packet. rewrite fold_left_write_hdr, length_app, Nat2Z.inj_add.
  change (Z.of_nat (length (uwsgiHeader size))) with 4. f_equal.
  induction hs as [|h hs IH]; cbn [flat_map totalSize]; [reflexivity|].
  rewrite length_app, Nat2Z.inj_add, length_write_hdr, IH. lia.
Qed.

(** X14. In either version, what the handler copies from its buffer to the
    connection is four bytes longer than the total size of the HeaderSet,
    so at most 65539 bytes; the two bytes after the first hold that total
    size. *)
Theorem packet_length (w : World) (r : Request) (run : list event * outcome)
    (p : list byte) (ok : bool) :
  run = ServeHTTP w r \/ run = Part000.ServeHTTP w r ->
  In (EvConnWrite p ok) (fst run) ->
  exists hs lo hi rest,
    p = packet hs (totalSize hs) /\
    Z.of_nat (length p) = 4 + totalSize hs /\
    4 <= Z.of_nat (length p) <= 65539 /\
    p = x00 :: lo :: hi :: x00 :: rest /\
    le16_value lo hi = Z.of_nat (length rest).
Proof.
  intros Hv Hin.
  assert (Hp : exists hs, totalSize hs <= maxSize /\ p = packet hs (totalSize hs)).
  { run_cases Hv.
    - destruct Hin as [Hin|[]]. discriminate.
    - apply in_app_or in Hin as [[Hin|[d Hin]]%In_retries|Hin];
        [discriminate|discriminate|].
      destruct Hin as [Hin|Hin]; [discriminate|].
      apply serve_conn_packet in Hin. subst. now exists hs.
    - apply in_app_or in Hin as [[Hin|[d Hin]]%In_retries|[Hin|[]]];
        discriminate.
    - apply in_app_or in Hin as [[Hin|[d' Hin]]%In_retries|[Hin|[Hin|[]]]];
        discriminate.
    - exfalso.
      apply in_app_or in Hin as [[Hin|[d Hin]]%In_retries|Hin];
        [discriminate|discriminate|].
      unfold logf in Hin. destruct (ErrorLog r); cbn in Hin;
        intuition discriminate.
    - exfalso.
      apply in_app_or in Hin as [[Hin|[d Hin]]%In_retries|Hin];
        [discriminate|discriminate|].
      unfold logf in Hin. destruct (ErrorLog r); cbn in Hin;
        intuition discriminate. }
  destruct Hp as (hs & Hle & ->).
  pose proof (totalSize_nonneg hs) as Hnn.
  exists hs. rewrite length_packet.
  rewrite packet_spec_packet by exact Hle. unfold spec_packet, le16.
  eexists _, _, _. split; [reflexivity|]. split; [reflexivity|].
  split; [unfold maxSize in Hle; lia|]. split; [reflexivity|].
  rewrite le16_value_le16 by lia. now rewrite length_spec_pairs.
Qed.

Lemma packet_length_witness :
  exists hs lo hi rest,
    packet (all_headers [] post_request) (totalSize (all_headers [] post_request))
      = packet hs (totalSize hs) /\
    Z.of_nat (length (packet (all_headers [] post_request)
                        (totalSize (all_headers [] post_request))))
      = 4 + totalSize hs /\
    4 <= Z.of_nat (length (packet (all_headers [] post_request)
                             (totalSize (all_headers [] post_request))))
      <= 65539 /\
    packet (all_headers [] post_request) (totalSize (all_headers [] post_request))
      = x00 :: lo :: hi :: x00 :: rest /\
    le16_value lo hi = Z.of_nat (length rest).
Proof.
  apply (packet_length (exchange_world 0 true true (Some reply)) post_request
           _ _ true (or_introl eq_refl)).
  vm_compute. right. left. reflexivity.
Defined.

(** The decoder leaves alone what follows the packet in the stream. *)
Lemma decode_spec_packet_app (hs : list hdr) (tail : list byte) :
  totalSize hs <= maxSize -> decode (spec_packet hs ++ tail) = Some hs.
Proof.
  intros Hfit. unfold spec_packet, le16. cbn [app decode].
  rewrite le16_value_le16 by (split; [apply totalSize_nonneg | exact Hfit]).
  rewrite length_app, Nat2Z.inj_add, length_spec_pairs.
  destruct (Z.leb_spec (totalSize hs)
              (totalSize hs + Z.of_nat (length tail))); [|lia].
  rewrite <- length_spec_pairs, Nat2Z.id, take_app_length.
  apply decode_pairs_spec; [apply fits_not_too_large; exact Hfit|].
  pose proof (totalSize_nonneg hs).
  assert (H' : forall l, (length l <= length (flat_map spec_pair l))%nat).
  { induction l as [|h l IH]; cbn [flat_map length]; [lia|].
    rewrite length_app. pose proof (length_spec_pair h).
    pose proof (len_nonneg (name h)). pose proof (len_nonneg (value h)). lia. }
  specialize (H' hs). lia.
Qed.

(** X15. The packets of two HeaderSets that fit are told apart, also with
    bytes after them: if a packet followed by some bytes equals another
    packet followed by some bytes, the HeaderSets are the same sequence of
    pairs and the bytes that follow are the same.  So the stream the
    handler writes, the packet and then the request body, has one reading
    only. *)
Theorem packet_unambiguous (hs1 hs2 : list hdr) (t1 t2 : list byte) :
  totalSize hs1 <= maxSize -> totalSize hs2 <= maxSize ->
  packet hs1 (totalSize hs1) ++ t1 = packet hs2 (totalSize hs2) ++ t2 ->
  hs1 = hs2 /\ t1 = t2.
Proof.
  intros H1 H2 E.
  assert (Hhs : hs1 = hs2).
  { apply (f_equal decode) in E.
    rewrite !packet_spec_packet, !decode_spec_packet_app in E by assumption.
    now inversion E. }
  subst hs2. split; [reflexivity|]. now apply app_inv_head in E.
Qed.

Lemma packet_unambiguous_witness :
  totalSize [mkhdr "A" "b"] <= maxSize /\
  ([mkhdr "A" "b"] = [mkhdr "A" "b"] /\ [x68; x69] = [x68; x69]).
Proof.
  assert (H : totalSize [mkhdr "A" "b"] <= maxSize) by (vm_compute; discriminate).
  split; [exact H|].
  exact (packet_unambiguous [mkhdr "A" "b"] [mkhdr "A" "b"] [x68; x69]
           [x68; x69] H H eq_refl).
Defined.

(** ** The positional fields, one by one *)

(** X16. In the HeaderSet the mapper returns, QUERY_STRING,
    REQUEST_METHOD, CONTENT_TYPE, REQUEST_URI, PATH_INFO, SERVER_PROTOCOL
    and SERVER_NAME occur exactly once each, also when their value is empty:
    they hold the raw query, the method, the first Content-Type value (empty
    when the request has none), the request URI, the path, the protocol and
    the request's Host.  HTTPS does not occur for a request that is not
    secure. *)
Theorem fixed_fields (choices : list nat) (r : Request) (hs : list hdr)
    (total : Z) :
  header_mapper choices r = inr (hs, total) ->
  values_of "QUERY_STRING" hs = [RawQuery (Url r)] /\
  values_of "REQUEST_METHOD" hs = [Method r] /\
  values_of "CONTENT_TYPE" hs = [Get (Header r) "Content-Type"] /\
  values_of "REQUEST_URI" hs = [RequestURI r] /\
  values_of "PATH_INFO" hs = [Path (Url r)] /\
  values_of "SERVER_PROTOCOL" hs = [Proto r] /\
  values_of "SERVER_NAME" hs = [Host r] /\
  (Scheme (Url r) <> "https" ->
   Get (Header r) "X-Forwarded-Proto" <> "https" ->
   values_of "HTTPS" hs = []).
Proof.
  intros (_ & -> & _)%header_mapper_inr.
  rewrite !values_of_all_headers by reflexivity.
  rewrite !values_of_remote_headers by discriminate.
  rewrite !(values_of_port_headers "QUERY_STRING"),
    !(values_of_port_headers "REQUEST_METHOD"),
    !(values_of_port_headers "CONTENT_TYPE"),
    !(values_of_port_headers "REQUEST_URI"),
    !(values_of_port_headers "PATH_INFO"),
    !(values_of_port_headers "SERVER_PROTOCOL"),
    !(values_of_port_headers "SERVER_NAME") by discriminate.
  repeat (split; [reflexivity|]).
  intros H1 H2. unfold port_headers.
  destruct (is_https r) eqn:Hs; [apply is_https_spec in Hs; tauto|].
  destruct (LocalAddr r) as [addr|]; [|reflexivity].
  destruct (Go_net.SplitHostPort addr) as [[host port]|]; reflexivity.
Qed.

Lemma fixed_fields_witness :
  values_of "CONTENT_TYPE" (all_headers [] plain_request) = [""] /\
  values_of "SERVER_NAME" (all_headers [] plain_request) = ["example.org"].
Proof.
  destruct (fixed_fields [] plain_request (all_headers [] plain_request)
              (totalSize (all_headers [] plain_request)))
    as (_ & _ & Hct & _ & _ & _ & Hsn & _).
  - vm_compute. reflexivity.
  - split; [exact Hct | exact Hsn].
Defined.

(** X17. The positional fields of the second version: REQUEST_SCHEME is
    the scheme of the URL; HTTPS is "on" exactly for the scheme https;
    REMOTE_ADDR and REMOTE_PORT are the host and port of the directly
    connected peer when its address splits, and are absent otherwise;
    SERVER_NAME and SERVER_PORT are the host and port of the local address
    when it is available and splits, and are absent otherwise.  The
    forwarding headers and the Host of the request play no part, and there
    is no default port. *)
Theorem part000_fields (choices : list nat) (r : Request) (hs : list hdr)
    (total : Z) :
  Part000.header_mapper choices r = inr (hs, total) ->
  values_of "REQUEST_SCHEME" hs = [Scheme (Url r)] /\
  values_of "HTTPS" hs =
    (if bool_decide (Scheme (Url r) = "https") then ["on"] else []) /\
  values_of "REMOTE_ADDR" hs =
    match Go_net.SplitHostPort (RemoteAddr r) with
    | Some (host, _) => [host]
    | None => []
    end /\
  values_of "REMOTE_PORT" hs =
    match Go_net.SplitHostPort (RemoteAddr r) with
    | Some (_, port) => [port]
    | None => []
    end /\
  values_of "SERVER_NAME" hs =
    match LocalAddr r with
    | Some addr =>
        match Go_net.SplitHostPort addr with
        | Some (host, _) => [host]
        | None => []
        end
    | None => []
    end /\
  values_of "SERVER_PORT" hs =
    match LocalAddr r with
    | Some addr =>
        match Go_net.SplitHostPort addr with
        | Some (_, port) => [port]
        | None => []
        end
    | None => []
    end.
Proof.
  intros (-> & _)%Part000_header_mapper_inr.
  unfold Part000.positional_headers.
  rewrite !values_of_app, !values_of_http_headers by reflexivity.
  destruct (bool_decide (Scheme (Url r) = "https")),
    (Go_net.SplitHostPort (RemoteAddr r)) as [[host port]|],
    (LocalAddr r) as [addr|];
    try destruct (Go_net.SplitHostPort addr) as [[host' port']|];
    repeat split; reflexivity.
Qed.

Lemma part000_fields_witness :
  exists hs total,
    Part000.header_mapper [] forwarded_request = inr (hs, total) /\
    values_of "REMOTE_ADDR" hs = ["9.9.9.9"] /\
    values_of "SERVER_NAME" hs = ["10.0.0.1"].
Proof.
  eexists _, _. split; [vm_compute; reflexivity|].
  destruct (part000_fields [] forwarded_request _ _ eq_refl)
    as (_ & _ & Ha & _ & Hn & _).
  split; [exact Ha | exact Hn].
Defined.

(** X18. The second version accepts a request exactly when it declares no
    trailer and the total encoded size of its HeaderSet is at most 65535;
    it answers a trailer with 400 and an oversize with 431, each as the
    only event of the run. *)
Theorem part000_accepts (w : World) (r : Request) :
  let hs := Part000.positional_headers r
            ++ map http_header (range_map (rangeHeader w) (Header r)) in
  (Get (Header r) "Trailer" <> "" ->
   Part000.ServeHTTP w r
     = ([EvError StatusBadRequest TrailersNotSupported], Returned)) /\
  (Get (Header r) "Trailer" = "" -> maxSize < totalSize hs ->
   exists text,
     Part000.ServeHTTP w r
       = ([EvError StatusRequestHeaderFieldsTooLarge text], Returned)) /\
  (Get (Header r) "Trailer" = "" -> totalSize hs <= maxSize ->
   Part000.header_mapper (rangeHeader w) r = inr (hs, totalSize hs)).
Proof.
  intros hs. split; [|split].
  - intros Ht. unfold Part000.ServeHTTP, Part000.header_mapper.
    now rewrite bool_decide_eq_false_2.
  - intros Ht Hbig. unfold Part000.ServeHTTP.
    destruct (Part000.header_mapper (rangeHeader w) r)
      as [[code text]|[hs' sz]] eqn:E.
    + apply Part000_header_mapper_inl in E as [[_ E]|[-> _]]; [tauto|].
      now exists text.
    + apply Part000_header_mapper_inr in E as (-> & -> & Hle).
      subst hs. lia.
  - intros Ht Hle. unfold Part000.header_mapper.
    rewrite bool_decide_eq_true_2 by exact Ht. cbn [negb].
    pose proof (fits_not_too_large _ Hle) as HF. subst hs.
    rewrite header_loop_ok.
    + rewrite size_loop_ok by exact HF. rewrite Z.add_0_l.
      destruct (maxSize <? _) eqn:Em; [apply Z.ltb_lt in Em; lia | reflexivity].
    + apply Forall_app in HF as [_ HF]. apply Forall_map in HF. exact HF.
Qed.

Lemma part000_accepts_witness :
  Part000.ServeHTTP (const_world DialOk TimerFired) trailer_request
    = ([EvError StatusBadRequest TrailersNotSupported], Returned) /\
  exists text,
    Part000.ServeHTTP (const_world DialOk TimerFired) wide_request
      = ([EvError StatusRequestHeaderFieldsTooLarge text], Returned).
Proof.
  split.
  - apply (proj1 (part000_accepts (const_world DialOk TimerFired)
                    trailer_request)).
    vm_compute. discriminate.
  - apply (proj1 (proj2 (part000_accepts (const_world DialOk TimerFired)
                           wide_request))).
    + reflexivity.
    + vm_compute. reflexivity.
Defined.

(** ** Panics and retries *)





(** The loop connects after [k] temporary failures whose waits ran to
    their end, when [k] delays are ahead. *)
Lemma dial_loop_connects (w : World) (r : Request) (k : nat) :
  forall ds fuel n tempDelay,
    schedule tempDelay ds -> (k <= length ds)%nat -> (length ds < fuel)%nat ->
    (forall i, (i < k)%nat ->
               dial w (n + i) = DialErr (NetError true) /\
               selectCase w (n + i) = TimerFired) ->
    dial w (n + k) = DialOk ->
    dial_loop fuel w r n tempDelay
      = (flat_map retry (take k ds) ++ [EvDial DialOk], Connected).
Proof.
  induction k as [|k IH]; intros ds fuel n tempDelay Hs Hk Hfuel Hfail Hok;
    (destruct fuel as [|fuel]; [lia|]).
  - rewrite Nat.add_0_r in Hok. rewrite dial_loop_S, Hok.
    now rewrite take_0.
  - destruct ds as [|d ds]; [cbn in Hk; lia|].
    cbn [schedule length] in *. destruct Hs as (-> & Hle & Hs).
    destruct (Hfail 0%nat ltac:(lia)) as [Hd Hsel].
    rewrite Nat.add_0_r in Hd, Hsel.
    rewrite dial_loop_retry by assumption.
    rewrite (IH ds fuel (S n) (next_delay tempDelay) Hs); try lia.
    + reflexivity.
    + intros i Hi. specialize (Hfail (S i) ltac:(lia)).
      now rewrite Nat.add_succ_r in Hfail.
    + now rewrite Nat.add_succ_r in Hok.
Qed.

(** X20. In either version, when the request passes the mapper, the first
    [k] calls of dial fail temporarily, every wait after them runs to its
    end and the next call returns a connection, with [k] at most 8, the
    handler waits the first [k] of the delays 5ms, 10ms, ..., 640ms, one
    after each failed call, and goes on to the exchange on the
    connection.  (A connection that would come only with the tenth call is
    never asked for.) *)
Theorem connects_after_retries (w : World) (r : Request)
    (run : list event * outcome) (hs : list hdr) (total : Z) (k : nat) :
  (header_mapper (rangeHeader w) r = inr (hs, total) /\ run = ServeHTTP w r) \/
  (Part000.header_mapper (rangeHeader w) r = inr (hs, total) /\
   run = Part000.ServeHTTP w r) ->
  (k <= 8)%nat ->
  (forall i, (i < k)%nat ->
             dial w i = DialErr (NetError true) /\ selectCase w i = TimerFired) ->
  dial w k = DialOk ->
  run = (flat_map retry (take k backoff_delays)
           ++ [EvDial DialOk] ++ serve_conn w r hs total, Returned) /\
  waits (fst run) = take k backoff_delays /\
  dial_count (fst run) = S k.
Proof.
  intros Hv Hk Hfail Hok.
  pose proof (dial_loop_connects w r k backoff_delays loop_fuel 0%nat 0
                schedule_backoff Hk ltac:(vm_compute; lia) Hfail Hok) as Hloop.
  assert (Hrun : run = (flat_map retry (take k backoff_delays)
                          ++ [EvDial DialOk] ++ serve_conn w r hs total,
                        Returned)).
  { destruct Hv as [[Hm ->]|[Hm ->]].
    - unfold ServeHTTP. rewrite Hm, Hloop. now rewrite <- app_assoc.
    - unfold Part000.ServeHTTP. rewrite Hm, Hloop. now rewrite <- app_assoc. }
  split; [exact Hrun|]. rewrite Hrun. cbn [fst].
  destruct (serve_conn_no_dial w r hs total) as [Hw Hd].
  unfold dial_count. observe. rewrite Hw, Hd, !app_nil_r.
  split; [reflexivity|].
  rewrite length_app, repeat_length, length_take.
  change (length backoff_delays) with 8%nat. cbn [length dials flat_map app].
  lia.
Qed.

Lemma connects_after_retries_witness :
  waits (fst (ServeHTTP (exchange_world 3 true true (Some reply)) post_request))
    = [5 * Millisecond; 10 * Millisecond; 20 * Millisecond] /\
  dial_count (fst (ServeHTTP (exchange_world 3 true true (Some reply))
                     post_request)) = 4%nat.
Proof.
  refine (proj2 (connects_after_retries
                   (exchange_world 3 true true (Some reply)) post_request _
                   (all_headers [] post_request)
                   (totalSize (all_headers [] post_request)) 3
                   (or_introl (conj _ eq_refl)) _ _ _)).
  - vm_compute. reflexivity.
  - lia.
  - intros i Hi. destruct i as [|[|[|i]]]; [split; reflexivity..|lia].
  - reflexivity.
Defined.
